(** * Traffic-intersection scheduling layer: model of [backend/flask_app/schedulers.py]

    Floats are modelled as rationals [Q], Python ints as [Z], Python
    dicts as association lists with dict semantics (distinct keys in
    insertion order; [dict.get] returns the first binding), and Python
    exceptions as the [Err] case of a small error monad. *)

From Stdlib Require Import String List ZArith QArith Bool Lia.
Import ListNotations.

Open Scope Q_scope.

(** ** Python helpers *)

Definition Qltb (x y : Q) : bool := negb (Qle_bool y x).

(** [min(a, b)] keeps [a] unless [b < a]; [max(a, b)] keeps [a] unless [b > a]. *)
Definition py_min (a b : Q) : Q := if Qltb b a then b else a.
Definition py_max (a b : Q) : Q := if Qltb a b then b else a.

Definition QZ (z : Z) : Q := inject_Z z.

Fixpoint sumZ (l : list Z) : Z :=
  match l with [] => 0%Z | x :: xs => (x + sumZ xs)%Z end.

Fixpoint sumQ (l : list Q) : Q :=
  match l with [] => 0 | x :: xs => x + sumQ xs end.

(** [d.get(k, dflt)] on a dict held as an association list. *)
Fixpoint dict_lookup {K V : Type} (eqb : K -> K -> bool) (k : K) (d : list (K * V)) (dflt : V) : V :=
  match d with
  | [] => dflt
  | (k', v) :: rest => if eqb k k' then v else dict_lookup eqb k rest dflt
  end.

Definition dict_get {V : Type} (k : string) (d : list (string * V)) (dflt : V) : V :=
  dict_lookup String.eqb k d dflt.

(** [d[k] = v]: overwrites in place when [k] is present, appends otherwise. *)
Fixpoint dict_set {K V : Type} (eqb : K -> K -> bool) (k : K) (v : V) (d : list (K * V)) : list (K * V) :=
  match d with
  | [] => [(k, v)]
  | (k', v') :: rest => if eqb k k' then (k', v) :: rest else (k', v') :: dict_set eqb k v rest
  end.

(** [min(xs, key=key)]: the first element whose key no later element beats;
    [None] stands for the [ValueError] on an empty sequence. *)
Definition py_min_by {A : Type} (lt : A -> A -> bool) (l : list A) : option A :=
  match l with
  | [] => None
  | x :: xs => Some (fold_left (fun best y => if lt y best then y else best) xs x)
  end.

(** [max(xs, key=key)]: replaces the current best only on a strictly greater key. *)
Definition py_max_by {A : Type} (lt : A -> A -> bool) (l : list A) : option A :=
  match l with
  | [] => None
  | x :: xs => Some (fold_left (fun best y => if lt best y then y else best) xs x)
  end.

(** ** Errors raised by the scheduler, and the error monad *)

Inductive error :=
| UnknownDirection (d : string)   (* ValueError in _get_green_phase_for_direction *)
| UnsupportedPolicy               (* ValueError in schedule *)
| IndexError                      (* cycle_order[next_index] on an empty list *)
| ZeroDivisionError               (* 100 / ev.priority with priority 0 *)
| EmptySequence.                  (* min() of an empty sequence *)

Inductive result (A : Type) :=
| Ok (a : A)
| Err (e : error).
Arguments Ok {A} a.
Arguments Err {A} e.

Definition bind {A B : Type} (m : result A) (k : A -> result B) : result B :=
  match m with Ok a => k a | Err e => Err e end.

Notation "x <- m ;; k" := (bind m (fun x => k)) (at level 61, m at next level, right associativity).

(** ** Data model *)

(** Phase names: the closed set of strings the scheduler handles. *)
Inductive PhaseId := NS_green | EW_green | NS_yellow | EW_yellow | all_red.

Definition PhaseId_eqb (a b : PhaseId) : bool :=
  match a, b with
  | NS_green, NS_green | EW_green, EW_green | NS_yellow, NS_yellow
  | EW_yellow, EW_yellow | all_red, all_red => true
  | _, _ => false
  end.

Definition is_green (p : PhaseId) : bool :=
  match p with NS_green | EW_green => true | _ => false end.

Definition is_yellow (p : PhaseId) : bool :=
  match p with NS_yellow | EW_yellow => true | _ => false end.

(** [phase.replace('green', 'yellow')] on the five phase names. *)
Definition replace_green_yellow (p : PhaseId) : PhaseId :=
  match p with
  | NS_green => NS_yellow
  | EW_green => EW_yellow
  | q => q
  end.

Record EmergencyVehicle := mkEV {
  direction : string;
  time_to_intersection : Q;
  vehicle_id : string;
  priority : Z
}.

Record IntersectionState := mkState {
  queues : list (string * Z);
  waiting_times : list (string * list Q);
  arrival_rates : list (string * Q);
  emergency : list EmergencyVehicle;
  current_phase : PhaseId;
  sim_time : Q
}.

Record Phase := mkPhase {
  phase : PhaseId;
  duration : Q;
  preemptable : bool
}.

Definition ActionPlan := list Phase.

Inductive SchedulingPolicy := ROUND_ROBIN | SHORTEST_JOB_FIRST | PRIORITY | META.

Record PolicyParams := mkParams {
  min_green : Q;
  max_green : Q;
  yellow_duration : Q;
  all_red_duration : Q;
  rr_cycle_order : list PhaseId;
  low_load_threshold : Q;
  high_variance_threshold : Q;
  sjf_horizon : Q;
  emergency_preempt_buffer : Q;
  min_switch_interval : Q;
  emergency_clear_duration : Q;
  debug : bool
}.

(** [_get_default_params] *)
Definition default_params : PolicyParams := {|
  min_green := 7; max_green := 60; yellow_duration := 3; all_red_duration := 1;
  rr_cycle_order := [NS_green; EW_green];
  low_load_threshold := 2; high_variance_threshold := 4; sjf_horizon := 30;
  emergency_preempt_buffer := 10; min_switch_interval := 5;
  emergency_clear_duration := 15; debug := false |}.

Definition str_N : string := "N".
Definition str_E : string := "E".
Definition str_S : string := "S".
Definition str_W : string := "W".

(** ** [TrafficScheduler] *)

Section Scheduler.

Variable params : PolicyParams.

(** [_get_green_phase_for_direction] *)
Definition get_green_phase_for_direction (d : string) : result PhaseId :=
  if String.eqb d str_N || String.eqb d str_S then Ok NS_green
  else if String.eqb d str_E || String.eqb d str_W then Ok EW_green
  else Err (UnknownDirection d).

(** [_get_queues_for_phase] *)
Definition get_queues_for_phase (st : IntersectionState) (p : PhaseId) : list (string * Z) :=
  match p with
  | NS_green => [(str_N, dict_get str_N (queues st) 0%Z); (str_S, dict_get str_S (queues st) 0%Z)]
  | EW_green => [(str_E, dict_get str_E (queues st) 0%Z); (str_W, dict_get str_W (queues st) 0%Z)]
  | _ => []
  end.

(** [_compute_average_queue_length] *)
Definition compute_average_queue_length (st : IntersectionState) : Q :=
  let qs := map snd (queues st) in
  match qs with
  | [] => 0
  | _ => QZ (sumZ qs) / QZ (Z.of_nat (length qs))
  end.

(** [_compute_queue_variance] *)
Definition compute_queue_variance (st : IntersectionState) : Q :=
  let qs := map snd (queues st) in
  if Nat.ltb (length qs) 2 then 0
  else
    let mean := QZ (sumZ qs) / QZ (Z.of_nat (length qs)) in
    sumQ (map (fun q => (QZ q - mean) * (QZ q - mean)) qs) / QZ (Z.of_nat (length qs)).

(** [_estimate_jobs_in_horizon] *)
Definition estimate_jobs_in_horizon (st : IntersectionState) (p : PhaseId) (horizon : Q) : Q :=
  let directions :=
    match p with
    | NS_green => [str_N; str_S]
    | EW_green => [str_E; str_W]
    | _ => []
    end in
  fold_left (fun total d => total + dict_get d (arrival_rates st) 0 * horizon) directions 0.

(** [_calculate_direction_priority] *)
Definition calculate_direction_priority (st : IntersectionState) (d : string) : result Q :=
  let queue_length := dict_get d (queues st) 0%Z in
  let wts := dict_get d (waiting_times st) [] in
  let prio0 := QZ (queue_length * 2) in
  let prio1 :=
    match wts with
    | [] => prio0
    | _ => prio0 + (sumQ wts / QZ (Z.of_nat (length wts))) / 10
    end in
  fold_left
    (fun acc ev =>
       p <- acc ;;
       if String.eqb (direction ev) d then
         if Z.eqb (priority ev) 0 then Err ZeroDivisionError
         else Ok (p + QZ 100 / QZ (priority ev))
       else Ok p)
    (emergency st) (Ok prio1).

(** [_schedule_transition_with_yellow] *)
Definition schedule_transition_with_yellow (cur target : PhaseId) : list Phase :=
  (if negb (PhaseId_eqb cur all_red)
   then [mkPhase (replace_green_yellow cur) (yellow_duration params) false]
   else [])
  ++ [mkPhase all_red (all_red_duration params) false].

(** The guarded call [if current_phase != target and current_phase != 'all_red']
    shared by every planner. *)
Definition transition_prefix (cur target : PhaseId) : list Phase :=
  if negb (PhaseId_eqb cur target) && negb (PhaseId_eqb cur all_red)
  then schedule_transition_with_yellow cur target
  else [].

(** [_has_urgent_emergency] *)
Definition has_urgent_emergency (st : IntersectionState) : bool :=
  existsb
    (fun ev => Qle_bool (time_to_intersection ev) (emergency_preempt_buffer params)
               || Z.ltb 0 (dict_get (direction ev) (queues st) 0%Z))
    (emergency st).

(** Lines 140-144 of [_handle_emergency]: [emergency_by_direction]. *)
Fixpoint dict_append_ev (k : string) (ev : EmergencyVehicle)
         (d : list (string * list EmergencyVehicle)) : list (string * list EmergencyVehicle) :=
  match d with
  | [] => [(k, [ev])]
  | (k', evs) :: rest =>
      if String.eqb k k' then (k', evs ++ [ev]) :: rest
      else (k', evs) :: dict_append_ev k ev rest
  end.

Definition group_by_direction (evs : list EmergencyVehicle) : list (string * list EmergencyVehicle) :=
  fold_left (fun d ev => dict_append_ev (direction ev) ev d) evs [].

(** Python tuple comparison [(t1, p1) < (t2, p2)]. *)
Definition tuple_lt (a b : Q * Z) : bool :=
  if Qeq_bool (fst a) (fst b) then Z.ltb (snd a) (snd b) else Qltb (fst a) (fst b).

Definition eta_lt (a b : EmergencyVehicle) : bool :=
  Qltb (time_to_intersection a) (time_to_intersection b).

Definition eta_prio_lt (a b : EmergencyVehicle) : bool :=
  tuple_lt (time_to_intersection a, priority a) (time_to_intersection b, priority b).

(** Lines 146-158 of [_handle_emergency]: [earliest_ev] / [urgent_ev]. *)
Definition select_emergency (st : IntersectionState) : option EmergencyVehicle :=
  if Nat.ltb 1 (length (group_by_direction (emergency st)))
  then py_min_by eta_lt (emergency st)
  else py_min_by eta_prio_lt (emergency st).

(** [_handle_emergency] *)
Definition handle_emergency (st : IntersectionState) : result ActionPlan :=
  match select_emergency st with
  | None => Err EmptySequence
  | Some ev =>
      let target_direction := direction ev in
      target_phase <- get_green_phase_for_direction target_direction ;;
      let plan := transition_prefix (current_phase st) target_phase in
      let emergency_count :=
        Z.of_nat (length (dict_get target_direction (group_by_direction (emergency st)) [])) in
      let emergency_duration :=
        py_min (emergency_clear_duration params + QZ ((emergency_count - 1) * 5))
               (max_green params) in
      Ok (plan ++ [mkPhase target_phase emergency_duration false])
  end.

(** [_select_policy] *)
Definition select_policy (st : IntersectionState) : SchedulingPolicy :=
  match emergency st with
  | _ :: _ => PRIORITY
  | [] =>
      let avg_queue := compute_average_queue_length st in
      let queue_variance := compute_queue_variance st in
      if Qltb avg_queue (low_load_threshold params) then ROUND_ROBIN
      else if Qltb (high_variance_threshold params) queue_variance then SHORTEST_JOB_FIRST
      else PRIORITY
  end.

(** [cycle_order.index(x)]; [None] is the [ValueError] of a missing element. *)
Fixpoint list_index (x : PhaseId) (l : list PhaseId) : option nat :=
  match l with
  | [] => None
  | y :: ys => if PhaseId_eqb x y then Some 0%nat
               else option_map S (list_index x ys)
  end.

(** [_round_robin_schedule] *)
Definition round_robin_schedule (st : IntersectionState) : result ActionPlan :=
  let cycle_order := rr_cycle_order params in
  let next_index :=
    match list_index (current_phase st) cycle_order with
    | Some i => Nat.modulo (S i) (length cycle_order)
    | None => 0%nat
    end in
  match nth_error cycle_order next_index with
  | None => Err IndexError
  | Some next_phase =>
      let plan := transition_prefix (current_phase st) next_phase in
      let total_vehicles := sumZ (map snd (get_queues_for_phase st next_phase)) in
      let dur := py_max (min_green params)
                        (py_min (max_green params) (min_green params + QZ (total_vehicles * 2))) in
      Ok (plan ++ [mkPhase next_phase dur true])
  end.

(** [phase_jobs] of [_sjf_schedule]. *)
Definition sjf_phase_jobs (st : IntersectionState) : list (PhaseId * Q) :=
  fold_left
    (fun jobs p =>
       let current_vehicles := sumZ (map snd (get_queues_for_phase st p)) in
       let expected_arrivals := estimate_jobs_in_horizon st p (sjf_horizon params) in
       dict_set PhaseId_eqb p (QZ current_vehicles + expected_arrivals) jobs)
    (rr_cycle_order params) [].

(** [_sjf_schedule] *)
Definition sjf_schedule (st : IntersectionState) : result ActionPlan :=
  let phase_jobs := sjf_phase_jobs st in
  match py_min_by (fun a b => Qltb (snd a) (snd b)) phase_jobs with
  | None => Ok []
  | Some (next_phase, _) =>
      let plan := transition_prefix (current_phase st) next_phase in
      let job_count := dict_lookup PhaseId_eqb next_phase phase_jobs 0 in
      let dur := py_max (min_green params) (py_min (max_green params) (job_count * 3)) in
      Ok (plan ++ [mkPhase next_phase dur true])
  end.

(** [direction_priorities] of [_priority_schedule]. *)
Definition direction_priorities (st : IntersectionState) : result (list (string * Q)) :=
  fold_left
    (fun acc d =>
       m <- acc ;;
       pr <- calculate_direction_priority st d ;;
       Ok (dict_set String.eqb d pr m))
    [str_N; str_E; str_S; str_W] (Ok []).

(** [_priority_schedule] *)
Definition priority_schedule (st : IntersectionState) : result ActionPlan :=
  dp <- direction_priorities st ;;
  match py_max_by (fun a b => Qltb (snd a) (snd b)) dp with
  | None => Ok []
  | Some (best_direction, _) =>
      next_phase <- get_green_phase_for_direction best_direction ;;
      let plan := transition_prefix (current_phase st) next_phase in
      let queue_length := dict_get best_direction (queues st) 0%Z in
      let base_duration := py_max (min_green params) (QZ queue_length * (5 # 2)) in
      let dur := py_min (max_green params) base_duration in
      Ok (plan ++ [mkPhase next_phase dur true])
  end.

(** The dispatch at the end of [schedule]. *)
Definition run_policy (st : IntersectionState) (policy : SchedulingPolicy) : result ActionPlan :=
  match policy with
  | ROUND_ROBIN => round_robin_schedule st
  | SHORTEST_JOB_FIRST => sjf_schedule st
  | PRIORITY => priority_schedule st
  | META => Err UnsupportedPolicy
  end.

(** [schedule] *)
Definition schedule (st : IntersectionState) (policy : SchedulingPolicy) : result ActionPlan :=
  if has_urgent_emergency st then handle_emergency st
  else
    let policy := match policy with META => select_policy st | p => p end in
    run_policy st policy.

End Scheduler.

(** [simulate_one_step] *)
Definition simulate_one_step (st : IntersectionState) (plan : ActionPlan) : IntersectionState :=
  match plan with
  | [] => st
  | next_phase :: _ =>
      mkState (queues st) (waiting_times st) (arrival_rates st) (emergency st)
              (phase next_phase) (sim_time st + duration next_phase)
  end.

(** ** [explain_decision] *)

(** The four messages of [explain_decision], carrying the numbers they
    interpolate ([avg_queue], [queue_variance]); the [:.1f] rendering of those
    numbers into text is left out. *)
Inductive Explanation :=
| ExplainEmergency                      (* "Emergency vehicles present - using Priority scheduling" *)
| ExplainLowLoad (avg : Q)              (* "Low traffic load (avg=..) - using Round Robin" *)
| ExplainHighVariance (var : Q)         (* "High queue variance (..) - using SJF to reduce backlog" *)
| ExplainBalanced (avg var : Q).        (* "Balanced conditions (avg=.., var=..) - using Priority" *)

Definition explain_decision (params : PolicyParams) (st : IntersectionState)
           (policy : SchedulingPolicy) : Explanation :=
  match emergency st with
  | _ :: _ => ExplainEmergency
  | [] =>
      let avg_queue := compute_average_queue_length st in
      let queue_variance := compute_queue_variance st in
      if Qltb avg_queue (low_load_threshold params) then ExplainLowLoad avg_queue
      else if Qltb (high_variance_threshold params) queue_variance
      then ExplainHighVariance queue_variance
      else ExplainBalanced avg_queue queue_variance
  end.

(** The policy each message names after "using". *)
Definition explanation_policy (e : Explanation) : SchedulingPolicy :=
  match e with
  | ExplainEmergency => PRIORITY
  | ExplainLowLoad _ => ROUND_ROBIN
  | ExplainHighVariance _ => SHORTEST_JOB_FIRST
  | ExplainBalanced _ _ => PRIORITY
  end.

(** The job count [phase_jobs[phase]] that [_sjf_schedule] stores for [phase]. *)
Definition sjf_jobs (params : PolicyParams) (st : IntersectionState) (p : PhaseId) : Q :=
  QZ (sumZ (map snd (get_queues_for_phase st p))) + estimate_jobs_in_horizon st p (sjf_horizon params).

(** ** Directions, well-formed states and concrete inputs *)

Definition valid_direction (d : string) : bool :=
  String.eqb d str_N || String.eqb d str_E || String.eqb d str_S || String.eqb d str_W.

(** The green [p] lets traffic from direction [d] through. *)
Definition serves (p : PhaseId) (d : string) : bool :=
  match p with
  | NS_green => String.eqb d str_N || String.eqb d str_S
  | EW_green => String.eqb d str_E || String.eqb d str_W
  | _ => false
  end.

(** Numerically valid state: emergency vehicles approach from one of the four
    directions and have priority at least 1. *)
Definition valid_state (st : IntersectionState) : Prop :=
  Forall (fun ev => valid_direction (direction ev) = true /\ (1 <= priority ev)%Z) (emergency st).

(** Scenario A of the specification. *)
Definition scenario_A : IntersectionState :=
  mkState [(str_N, 1%Z); (str_E, 1%Z); (str_S, 1%Z); (str_W, 1%Z)]
          []
          [(str_N, 2 # 100); (str_E, 2 # 100); (str_S, 2 # 100); (str_W, 2 # 100)]
          [] NS_green 0.

(** Default parameters with an empty [rr_cycle_order]. *)
Definition params_no_cycle : PolicyParams :=
  {| min_green := 7; max_green := 60; yellow_duration := 3; all_red_duration := 1;
     rr_cycle_order := [];
     low_load_threshold := 2; high_variance_threshold := 4; sjf_horizon := 30;
     emergency_preempt_buffer := 10; min_switch_interval := 5;
     emergency_clear_duration := 15; debug := false |}.

(** Default parameters with an emergency clearance shorter than [min_green]. *)
Definition params_short_clear : PolicyParams :=
  {| min_green := 7; max_green := 60; yellow_duration := 3; all_red_duration := 1;
     rr_cycle_order := [NS_green; EW_green];
     low_load_threshold := 2; high_variance_threshold := 4; sjf_horizon := 30;
     emergency_preempt_buffer := 10; min_switch_interval := 5;
     emergency_clear_duration := 5; debug := false |}.

(** Scenario C of the specification: one urgent ambulance from the north. *)
Definition scenario_C : IntersectionState :=
  mkState [(str_N, 2%Z); (str_E, 3%Z); (str_S, 1%Z); (str_W, 2%Z)] [] []
          [mkEV str_N 4 "EMG001" 1] EW_green 0.

(** Scenario D of the specification: two emergencies on different axes. *)
Definition scenario_D : IntersectionState :=
  mkState [(str_N, 2%Z); (str_E, 3%Z); (str_S, 1%Z); (str_W, 2%Z)] [] []
          [mkEV str_E 8 "EMG001" 1; mkEV str_N 5 "EMG002" 1] EW_green 0.

(** An urgent emergency vehicle reported with a malformed direction. *)
Definition scenario_bad_direction : IntersectionState :=
  mkState [(str_N, 2%Z); (str_E, 3%Z); (str_S, 1%Z); (str_W, 2%Z)] [] []
          [mkEV "X" 4 "EMG001" 1] EW_green 0.

Definition eta_le (a b : EmergencyVehicle) : Prop :=
  time_to_intersection a <= time_to_intersection b.

(** The order of the key [(time_to_intersection, priority)]. *)
Definition eta_prio_le (a b : EmergencyVehicle) : Prop :=
  time_to_intersection a < time_to_intersection b \/
  (time_to_intersection a == time_to_intersection b /\ (priority a <= priority b)%Z).

(** Scenario E of the specification: the westbound queue wins. *)
Definition scenario_E : IntersectionState :=
  mkState [(str_N, 3%Z); (str_E, 2%Z); (str_S, 1%Z); (str_W, 4%Z)]
          [(str_N, [10; 15; 20]); (str_E, [5; 8]); (str_S, [12]); (str_W, [25; 30; 18; 22])]
          [] [] NS_green 0.

(** Two urgent emergency vehicles approaching from the north. *)
Definition scenario_two_north : IntersectionState :=
  mkState [(str_N, 2%Z); (str_E, 3%Z); (str_S, 1%Z); (str_W, 2%Z)] [] []
          [mkEV str_N 4 "EMG001" 1; mkEV str_N 6 "EMG002" 2] EW_green 0.

(** A distant emergency vehicle reported with priority 0 on an empty approach. *)
Definition scenario_zero_priority : IntersectionState :=
  mkState [(str_N, 0%Z); (str_E, 3%Z); (str_S, 1%Z); (str_W, 2%Z)] [] []
          [mkEV str_N 20 "EMG001" 0] EW_green 0.

(** * Proofs *)

(** ** Comparisons and clipping *)

Lemma Qltb_true (x y : Q) : Qltb x y = true <-> x < y.
Proof.
  unfold Qltb. rewrite negb_true_iff. split.
  - intros H. apply Qnot_le_lt. intros Hle. apply Qle_bool_iff in Hle. congruence.
  - intros H. destruct (Qle_bool y x) eqn:E; [|reflexivity].
    apply Qle_bool_iff in E. exfalso. apply (Qlt_not_le x y); assumption.
Qed.

Lemma Qltb_false (x y : Q) : Qltb x y = false -> y <= x.
Proof.
  unfold Qltb. rewrite negb_false_iff. apply Qle_bool_iff.
Qed.

Lemma py_min_le_l (a b : Q) : py_min a b <= a.
Proof.
  unfold py_min. destruct (Qltb b a) eqn:E.
  - apply Qlt_le_weak, Qltb_true, E.
  - apply Qle_refl.
Qed.

Lemma py_min_le_r (a b : Q) : py_min a b <= b.
Proof.
  unfold py_min. destruct (Qltb b a) eqn:E.
  - apply Qle_refl.
  - apply Qltb_false, E.
Qed.

Lemma py_min_glb (a b c : Q) : c <= a -> c <= b -> c <= py_min a b.
Proof. unfold py_min. destruct (Qltb b a); auto. Qed.

Lemma py_max_ge_l (a b : Q) : a <= py_max a b.
Proof.
  unfold py_max. destruct (Qltb a b) eqn:E.
  - apply Qlt_le_weak, Qltb_true, E.
  - apply Qle_refl.
Qed.

Lemma py_max_ge_r (a b : Q) : b <= py_max a b.
Proof.
  unfold py_max. destruct (Qltb a b) eqn:E.
  - apply Qle_refl.
  - apply Qltb_false, E.
Qed.

Lemma py_max_lub (a b c : Q) : a <= c -> b <= c -> py_max a b <= c.
Proof. unfold py_max. destruct (Qltb a b); auto. Qed.

(** ** [min] / [max] with a key *)

Section MinBy.
Context {A : Type} (lt : A -> A -> bool) (le : A -> A -> Prop).
Hypothesis le_refl : forall a, le a a.
Hypothesis le_trans : forall a b c, le a b -> le b c -> le a c.
Hypothesis lt_le : forall a b, lt a b = true -> le a b.
Hypothesis nlt_le : forall a b, lt a b = false -> le b a.

Lemma fold_min_spec (l : list A) (x : A) :
  (In (fold_left (fun best y => if lt y best then y else best) l x) (x :: l))
  /\ forall z, In z (x :: l) -> le (fold_left (fun best y => if lt y best then y else best) l x) z.
Proof.
  revert x. induction l as [|y l IH]; intros x; simpl.
  - split; [left; reflexivity|]. intros z [<-|[]]. apply le_refl.
  - destruct (lt y x) eqn:E.
    + destruct (IH y) as [Hin Hle]. split.
      * destruct Hin as [Hin|Hin]; [right; left; assumption | right; right; assumption].
      * intros z [<-|[<-|Hz]].
        -- apply le_trans with y; [apply Hle; left; reflexivity | apply lt_le, E].
        -- apply Hle. left. reflexivity.
        -- apply Hle. right. assumption.
    + destruct (IH x) as [Hin Hle]. split.
      * destruct Hin as [Hin|Hin]; [left; assumption | right; right; assumption].
      * intros z [<-|[<-|Hz]].
        -- apply Hle. left. reflexivity.
        -- apply le_trans with x; [apply Hle; left; reflexivity | apply nlt_le, E].
        -- apply Hle. right. assumption.
Qed.

Lemma py_min_by_spec (l : list A) (m : A) :
  py_min_by lt l = Some m -> In m l /\ forall z, In z l -> le m z.
Proof.
  destruct l as [|x l]; simpl; [discriminate|]. intros H. injection H as <-.
  apply fold_min_spec.
Qed.

End MinBy.

Lemma py_min_by_some {A : Type} (lt : A -> A -> bool) (l : list A) :
  l <> [] -> exists m, py_min_by lt l = Some m.
Proof. destruct l; simpl; [congruence | eauto]. Qed.

Lemma py_min_by_In {A : Type} (lt : A -> A -> bool) (l : list A) (m : A) :
  py_min_by lt l = Some m -> In m l.
Proof.
  intros H. apply (py_min_by_spec lt (fun a b => True)) in H; intuition.
Qed.

(** ** Shape of the plans returned by the planners *)

Lemma get_green_phase_green (d : string) (t : PhaseId) :
  get_green_phase_for_direction d = Ok t -> is_green t = true.
Proof.
  unfold get_green_phase_for_direction.
  destruct (String.eqb d str_N || String.eqb d str_S); [intros H; injection H as <-; reflexivity|].
  destruct (String.eqb d str_E || String.eqb d str_W); [intros H; injection H as <-; reflexivity|].
  discriminate.
Qed.

Lemma dict_set_keys {K V : Type} (eqb : K -> K -> bool) (k : K) (v : V) (d : list (K * V)) (k' : K) :
  In k' (map fst (dict_set eqb k v d)) -> k' = k \/ In k' (map fst d).
Proof.
  induction d as [|[k0 v0] d IH]; simpl.
  - intros [H|[]]. left. symmetry. assumption.
  - destruct (eqb k k0); simpl.
    + intros [H|H]; right; [left | right]; assumption.
    + intros [H|H]; [right; left; assumption|].
      destruct (IH H) as [H'|H']; [left | right; right]; assumption.
Qed.

Lemma sjf_phase_jobs_keys (params : PolicyParams) (st : IntersectionState) (p : PhaseId) (j : Q) :
  In (p, j) (sjf_phase_jobs params st) -> In p (rr_cycle_order params).
Proof.
  intros H. apply (in_map fst) in H. simpl in H. revert H. unfold sjf_phase_jobs.
  assert (Hgen : forall l (acc : list (PhaseId * Q)),
            In p (map fst (fold_left
              (fun jobs q =>
                 dict_set PhaseId_eqb q
                   (QZ (sumZ (map snd (get_queues_for_phase st q)))
                    + estimate_jobs_in_horizon st q (sjf_horizon params)) jobs) l acc)) ->
            In p l \/ In p (map fst acc)).
  { induction l as [|q l IH]; simpl; intros acc H; [right; assumption|].
    destruct (IH _ H) as [H1|H1]; [left; right; assumption|].
    apply dict_set_keys in H1. destruct H1 as [H1|H1]; [left; left; symmetry; assumption|right; assumption]. }
  intros H. destruct (Hgen _ _ H) as [H1|[]]. assumption.
Qed.

Lemma rr_shape (params : PolicyParams) (st : IntersectionState) (p : ActionPlan) :
  round_robin_schedule params st = Ok p ->
  exists target x, In target (rr_cycle_order params) /\
    p = transition_prefix params (current_phase st) target
        ++ [mkPhase target (py_max (min_green params) (py_min (max_green params) x)) true].
Proof.
  unfold round_robin_schedule.
  match goal with |- context [nth_error ?l ?i] => destruct (nth_error l i) as [t|] eqn:E end;
    [|discriminate].
  intros H. injection H as <-. exists t, (min_green params
    + QZ (sumZ (map snd (get_queues_for_phase st t)) * 2)). split; [|reflexivity].
  eapply nth_error_In. eassumption.
Qed.

Lemma sjf_shape (params : PolicyParams) (st : IntersectionState) (p : ActionPlan) :
  sjf_schedule params st = Ok p ->
  p = [] \/ exists target x, In target (rr_cycle_order params) /\
    p = transition_prefix params (current_phase st) target
        ++ [mkPhase target (py_max (min_green params) (py_min (max_green params) x)) true].
Proof.
  unfold sjf_schedule.
  destruct (py_min_by _ (sjf_phase_jobs params st)) as [[t j]|] eqn:E.
  - intros H. injection H as <-. right.
    exists t, (dict_lookup PhaseId_eqb t (sjf_phase_jobs params st) 0 * 3). split; [|reflexivity].
    apply py_min_by_In in E. eapply sjf_phase_jobs_keys. eassumption.
  - intros H. injection H as <-. left. reflexivity.
Qed.

Lemma priority_shape (params : PolicyParams) (st : IntersectionState) (p : ActionPlan) :
  priority_schedule params st = Ok p ->
  p = [] \/ exists target x, is_green target = true /\
    p = transition_prefix params (current_phase st) target
        ++ [mkPhase target (py_min (max_green params) (py_max (min_green params) x)) true].
Proof.
  unfold priority_schedule. destruct (direction_priorities st) as [dp|e]; simpl; [|discriminate].
  destruct (py_max_by (fun a b => Qltb (snd a) (snd b)) dp) as [[d pr]|].
  - destruct (get_green_phase_for_direction d) as [t|e] eqn:E; simpl; [|discriminate].
    intros H. injection H as <-. right.
    exists t, (QZ (dict_get d (queues st) 0%Z) * (5 # 2)). split; [|reflexivity].
    eapply get_green_phase_green. eassumption.
  - intros H. injection H as <-. left. reflexivity.
Qed.

Lemma emergency_shape (params : PolicyParams) (st : IntersectionState) (p : ActionPlan) :
  handle_emergency params st = Ok p ->
  exists ev target, select_emergency st = Some ev /\
    get_green_phase_for_direction (direction ev) = Ok target /\
    p = transition_prefix params (current_phase st) target
        ++ [mkPhase target
              (py_min (emergency_clear_duration params
                       + QZ ((Z.of_nat (length (dict_get (direction ev)
                                (group_by_direction (emergency st)) [])) - 1) * 5))
                      (max_green params)) false].
Proof.
  unfold handle_emergency. destruct (select_emergency st) as [ev|]; [|discriminate].
  destruct (get_green_phase_for_direction (direction ev)) as [t|e] eqn:E; simpl; [|discriminate].
  intros H. injection H as <-. exists ev, t. auto.
Qed.

(** Every successful plan is a (possibly empty) transition prefix followed by one
    target phase, or is empty. *)
Lemma schedule_shape (params : PolicyParams) (st : IntersectionState) (pol : SchedulingPolicy) (p : ActionPlan) :
  schedule params st pol = Ok p ->
  p = [] \/ exists target d b,
    p = transition_prefix params (current_phase st) target ++ [mkPhase target d b].
Proof.
  unfold schedule. destruct (has_urgent_emergency params st).
  - intros H. apply emergency_shape in H. destruct H as (ev & t & _ & _ & ->). right. eauto.
  - unfold run_policy.
    destruct (match pol with META => select_policy params st | p0 => p0 end); intros H.
    + apply rr_shape in H. destruct H as (t & x & _ & ->). right. eauto.
    + apply sjf_shape in H. destruct H as [->|(t & x & _ & ->)]; [left; reflexivity | right; eauto].
    + apply priority_shape in H. destruct H as [->|(t & x & _ & ->)]; [left; reflexivity | right; eauto].
    + discriminate.
Qed.

(** ** Claims about the transition builder and cross-axis plans *)

(** C1: whenever the current phase is a green and [schedule] returns a plan that
    contains the green of the other axis, the plan is exactly the yellow of the
    current axis, then [all_red], then that green. *)
Theorem cross_axis_green_has_yellow_then_all_red
  (params : PolicyParams) (st : IntersectionState) (pol : SchedulingPolicy)
  (p : ActionPlan) (x : Phase) :
  is_green (current_phase st) = true ->
  schedule params st pol = Ok p ->
  In x p -> is_green (phase x) = true -> phase x <> current_phase st ->
  exists d b,
    p = [mkPhase (replace_green_yellow (current_phase st)) (yellow_duration params) false;
         mkPhase all_red (all_red_duration params) false;
         mkPhase (phase x) d b].
Proof.
  intros Hg Hs Hin Hxg Hne. apply schedule_shape in Hs.
  destruct Hs as [->|(t & d & b & ->)]; [destruct Hin|].
  unfold transition_prefix, schedule_transition_with_yellow in *.
  destruct (current_phase st); try discriminate; destruct t; simpl in *;
    repeat (destruct Hin as [<-|Hin]; simpl in *); try contradiction; try discriminate;
    eauto.
Qed.

(** C4 (amended): from a yellow the builder emits that same yellow and then
    [all_red], both non-preemptable; from any phase it never emits a green. *)
Theorem transition_builder_from_yellow_and_no_green (params : PolicyParams) (target : PhaseId) :
  schedule_transition_with_yellow params NS_yellow target =
    [mkPhase NS_yellow (yellow_duration params) false; mkPhase all_red (all_red_duration params) false] /\
  schedule_transition_with_yellow params EW_yellow target =
    [mkPhase EW_yellow (yellow_duration params) false; mkPhase all_red (all_red_duration params) false] /\
  forall cur, forallb (fun ph => negb (is_green (phase ph)))
                      (schedule_transition_with_yellow params cur target) = true.
Proof.
  split; [reflexivity|]. split; [reflexivity|].
  intros cur. destruct cur; reflexivity.
Qed.

(** C4: from [NS_yellow] the builder does not emit the single phase [all_red]. *)
Lemma transition_builder_from_yellow_counterexample :
  schedule_transition_with_yellow default_params NS_yellow NS_green
    <> [mkPhase all_red 1 false].
Proof. simpl. discriminate. Qed.

(** ** Scenario A *)

(** C5 (amended): on Scenario A the meta-scheduler picks Round Robin and the
    plan ends in [EW_green] for [min_green + 2 * 2 = 11] seconds. *)
Theorem scenario_A_plan :
  select_policy default_params scenario_A = ROUND_ROBIN /\
  schedule default_params scenario_A META =
    Ok [mkPhase NS_yellow 3 false; mkPhase all_red 1 false; mkPhase EW_green 11 true].
Proof. split; vm_compute; reflexivity. Qed.

(** C5: the plan of Scenario A does not end in a 7-second [EW_green]. *)
Lemma scenario_A_counterexample :
  schedule default_params scenario_A META
    <> Ok [mkPhase NS_yellow 3 false; mkPhase all_red 1 false; mkPhase EW_green 7 true].
Proof. vm_compute. discriminate. Qed.

(** ** [simulate_one_step] *)

(** C10: an empty plan leaves the state unchanged; otherwise only
    [current_phase] and [sim_time] move, to the first phase of the plan. *)
Theorem simulate_one_step_frame :
  (forall st, simulate_one_step st [] = st) /\
  (forall st ph rest,
     let st' := simulate_one_step st (ph :: rest) in
     current_phase st' = phase ph /\ sim_time st' = sim_time st + duration ph /\
     queues st' = queues st /\ waiting_times st' = waiting_times st /\
     arrival_rates st' = arrival_rates st /\ emergency st' = emergency st).
Proof.
  split; [reflexivity|]. intros st ph rest. simpl. repeat split.
Qed.

(** C1 at Scenario A. *)
Lemma cross_axis_green_witness :
  exists d b,
    [mkPhase NS_yellow 3 false; mkPhase all_red 1 false; mkPhase EW_green 11 true] =
    [mkPhase (replace_green_yellow (current_phase scenario_A)) (yellow_duration default_params) false;
     mkPhase all_red (all_red_duration default_params) false;
     mkPhase (phase (mkPhase EW_green 11 true)) d b].
Proof.
  apply (cross_axis_green_has_yellow_then_all_red default_params scenario_A META
           [mkPhase NS_yellow 3 false; mkPhase all_red 1 false; mkPhase EW_green 11 true]
           (mkPhase EW_green 11 true)).
  - reflexivity.
  - vm_compute. reflexivity.
  - simpl. auto.
  - reflexivity.
  - simpl. discriminate.
Defined.

(** ** Emergency preemption *)

Lemma urgent_nonempty (params : PolicyParams) (st : IntersectionState) :
  has_urgent_emergency params st = true -> emergency st <> [].
Proof. unfold has_urgent_emergency. destruct (emergency st); simpl; congruence. Qed.

Lemma select_emergency_In (st : IntersectionState) (ev : EmergencyVehicle) :
  select_emergency st = Some ev -> In ev (emergency st).
Proof.
  unfold select_emergency. destruct (Nat.ltb _ _); apply py_min_by_In.
Qed.

Lemma select_emergency_some (st : IntersectionState) :
  emergency st <> [] -> exists ev, select_emergency st = Some ev.
Proof.
  intros H. unfold select_emergency. destruct (Nat.ltb _ _); apply py_min_by_some; assumption.
Qed.

Lemma get_green_phase_valid (d : string) :
  valid_direction d = true ->
  exists t, get_green_phase_for_direction d = Ok t /\ is_green t = true /\ serves t d = true.
Proof.
  unfold valid_direction, get_green_phase_for_direction, serves.
  destruct (String.eqb d str_N), (String.eqb d str_E), (String.eqb d str_S), (String.eqb d str_W);
    simpl; try discriminate; intros _; eauto.
Qed.

Lemma get_green_phase_invalid (d : string) :
  valid_direction d = false -> get_green_phase_for_direction d = Err (UnknownDirection d).
Proof.
  unfold valid_direction, get_green_phase_for_direction.
  destruct (String.eqb d str_N), (String.eqb d str_E), (String.eqb d str_S), (String.eqb d str_W);
    simpl; try discriminate; reflexivity.
Qed.

(** C2: with an urgent emergency, whatever the policy argument, the plan ends in
    a non-preemptable green serving the direction of the selected vehicle. *)
Theorem urgent_emergency_plan_ends_in_green
  (params : PolicyParams) (st : IntersectionState) (pol : SchedulingPolicy) :
  has_urgent_emergency params st = true ->
  Forall (fun ev => valid_direction (direction ev) = true) (emergency st) ->
  exists ev pre last,
    select_emergency st = Some ev /\
    schedule params st pol = Ok (pre ++ [last]) /\
    is_green (phase last) = true /\ serves (phase last) (direction ev) = true /\
    preemptable last = false.
Proof.
  intros Hu Hv. destruct (select_emergency_some st (urgent_nonempty params st Hu)) as [ev Hev].
  pose proof (select_emergency_In st ev Hev) as Hin.
  rewrite Forall_forall in Hv.
  destruct (get_green_phase_valid (direction ev) (Hv ev Hin)) as (t & Ht & Hg & Hsv).
  unfold schedule. rewrite Hu. unfold handle_emergency. rewrite Hev. simpl. rewrite Ht. simpl.
  eexists ev, _, _. split; [reflexivity|]. split; [reflexivity|]. simpl. auto.
Qed.

(** C2 at Scenario C. *)
Lemma urgent_emergency_plan_witness :
  exists ev pre last,
    select_emergency scenario_C = Some ev /\
    schedule default_params scenario_C META = Ok (pre ++ [last]) /\
    is_green (phase last) = true /\ serves (phase last) (direction ev) = true /\
    preemptable last = false.
Proof.
  apply urgent_emergency_plan_ends_in_green.
  - vm_compute. reflexivity.
  - repeat constructor.
Defined.

(** C9: an urgent emergency whose selected vehicle has a direction outside
    N, E, S, W makes [schedule] raise [Unknown direction]. *)
Theorem unknown_emergency_direction_raises
  (params : PolicyParams) (st : IntersectionState) (pol : SchedulingPolicy) (ev : EmergencyVehicle) :
  has_urgent_emergency params st = true ->
  select_emergency st = Some ev ->
  valid_direction (direction ev) = false ->
  schedule params st pol = Err (UnknownDirection (direction ev)).
Proof.
  intros Hu Hs Hv. unfold schedule. rewrite Hu. unfold handle_emergency. rewrite Hs. simpl.
  rewrite (get_green_phase_invalid _ Hv). reflexivity.
Qed.

(** C9 at a vehicle reported from direction "X". *)
Lemma unknown_emergency_direction_witness :
  schedule default_params scenario_bad_direction ROUND_ROBIN = Err (UnknownDirection "X").
Proof.
  apply (unknown_emergency_direction_raises default_params scenario_bad_direction ROUND_ROBIN
           (mkEV "X" 4 "EMG001" 1)).
  - vm_compute. reflexivity.
  - vm_compute. reflexivity.
  - vm_compute. reflexivity.
Defined.

(** ** [emergency_by_direction] *)

Lemma dict_append_ev_mono (k d : string) (ev : EmergencyVehicle) m :
  (length (dict_get d m []) <= length (dict_get d (dict_append_ev k ev m) []))%nat.
Proof.
  unfold dict_get. induction m as [|[k' evs] m IH]; simpl.
  - lia.
  - destruct (String.eqb k k'); simpl; destruct (String.eqb d k'); auto.
    rewrite length_app. lia.
Qed.

Lemma dict_append_ev_here (k : string) (ev : EmergencyVehicle) m :
  (1 <= length (dict_get k (dict_append_ev k ev m) []))%nat.
Proof.
  unfold dict_get. induction m as [|[k' evs] m IH]; simpl.
  - rewrite String.eqb_refl. simpl. lia.
  - destruct (String.eqb k k') eqn:E; simpl; rewrite E; auto.
    rewrite length_app. simpl. lia.
Qed.

Lemma group_by_direction_fold (l : list EmergencyVehicle) acc (d : string) :
  ((1 <= length (dict_get d acc []))%nat \/ exists ev, In ev l /\ direction ev = d) ->
  (1 <= length (dict_get d (fold_left (fun m ev => dict_append_ev (direction ev) ev m) l acc) []))%nat.
Proof.
  revert acc. induction l as [|ev l IH]; simpl; intros acc H.
  - destruct H as [H|(e & [] & _)]. assumption.
  - apply IH. destruct H as [H|(e & [<-|He] & Hd)].
    + left. eapply Nat.le_trans; [eassumption | apply dict_append_ev_mono].
    + left. subst d. apply dict_append_ev_here.
    + right. eauto.
Qed.

(** The group of a vehicle's own direction holds at least that vehicle. *)
Lemma group_by_direction_member (l : list EmergencyVehicle) (ev : EmergencyVehicle) :
  In ev l -> (1 <= length (dict_get (direction ev) (group_by_direction l) []))%nat.
Proof.
  intros H. apply group_by_direction_fold. right. eauto.
Qed.

Lemma dict_get_key {V : Type} (d : string) (m : list (string * list V)) :
  dict_get d m [] <> [] -> In d (map fst m).
Proof.
  unfold dict_get. induction m as [|[k v] m IH]; simpl; [congruence|].
  destruct (String.eqb d k) eqn:E.
  - intros _. left. symmetry. apply String.eqb_eq. assumption.
  - intros H. right. auto.
Qed.

Lemma two_keys_length {A : Type} (l : list A) (a b : A) :
  In a l -> In b l -> a <> b -> (1 < length l)%nat.
Proof.
  destruct l as [|x [|y l]]; simpl.
  - intros [].
  - intros [<-|[]] [<-|[]]. congruence.
  - intros. lia.
Qed.

(** Two vehicles on distinct directions give at least two groups. *)
Lemma group_by_direction_two (l : list EmergencyVehicle) (e1 e2 : EmergencyVehicle) :
  In e1 l -> In e2 l -> direction e1 <> direction e2 ->
  (1 < length (group_by_direction l))%nat.
Proof.
  intros H1 H2 Hne.
  assert (K : forall e, In e l -> In (direction e) (map fst (group_by_direction l))).
  { intros e He. apply dict_get_key. intros Hnil.
    pose proof (group_by_direction_member l e He) as Hl. rewrite Hnil in Hl. simpl in Hl. lia. }
  rewrite <- (length_map fst). eapply two_keys_length; [apply K, H1 | apply K, H2 | exact Hne].
Qed.

(** Vehicles all on direction [d] give at most one group. *)
Lemma group_by_direction_one (l : list EmergencyVehicle) (d : string) :
  (forall e, In e l -> direction e = d) -> (length (group_by_direction l) <= 1)%nat.
Proof.
  intros H. unfold group_by_direction.
  assert (Hgen : forall l' acc,
            (forall e, In e l' -> direction e = d) ->
            (acc = [] \/ exists evs, acc = [(d, evs)]) ->
            let r := fold_left (fun m ev => dict_append_ev (direction ev) ev m) l' acc in
            r = [] \/ exists evs, r = [(d, evs)]).
  { induction l' as [|e l' IH]; simpl; intros acc He Hacc; [assumption|].
    apply IH; [intros; apply He; right; assumption|].
    rewrite (He e (or_introl eq_refl)).
    destruct Hacc as [->|(evs & ->)]; right; simpl.
    - eauto.
    - rewrite String.eqb_refl. eauto. }
  destruct (Hgen l [] H (or_introl eq_refl)) as [->|(evs & ->)]; simpl; lia.
Qed.

(** ** Selection of the emergency vehicle *)

Lemma eta_min_spec (l : list EmergencyVehicle) (m : EmergencyVehicle) :
  py_min_by eta_lt l = Some m -> In m l /\ forall z, In z l -> eta_le m z.
Proof.
  apply py_min_by_spec; unfold eta_le, eta_lt.
  - intros a. apply Qle_refl.
  - intros a b c. apply Qle_trans.
  - intros a b H. apply Qlt_le_weak, Qltb_true, H.
  - intros a b H. apply Qltb_false, H.
Qed.

Lemma eta_prio_min_spec (l : list EmergencyVehicle) (m : EmergencyVehicle) :
  py_min_by eta_prio_lt l = Some m -> In m l /\ forall z, In z l -> eta_prio_le m z.
Proof.
  apply py_min_by_spec; unfold eta_prio_le, eta_prio_lt, tuple_lt; simpl.
  - intros a. right. split; [apply Qeq_refl | lia].
  - intros a b c [Hab|[Hab Pab]] [Hbc|[Hbc Pbc]].
    + left. eapply Qlt_trans; eassumption.
    + left. rewrite <- Hbc. assumption.
    + left. rewrite Hab. assumption.
    + right. split; [eapply Qeq_trans; eassumption | lia].
  - intros a b. destruct (Qeq_bool _ _) eqn:E.
    + intros H. apply Qeq_bool_iff in E. apply Z.ltb_lt in H. right. split; [assumption | lia].
    + intros H. left. apply Qltb_true, H.
  - intros a b. destruct (Qeq_bool _ _) eqn:E.
    + intros H. apply Qeq_bool_iff in E. apply Z.ltb_ge in H. right.
      split; [apply Qeq_sym; assumption | lia].
    + intros H. apply Qltb_false in H. apply Qle_lteq in H. destruct H as [H|H]; [left; assumption|].
      apply Qeq_bool_neq in E. exfalso. apply E. apply Qeq_sym. assumption.
Qed.

(** C6: with emergencies on several directions the selected vehicle has the
    smallest time to the intersection of the whole set (its priority plays no
    part), in particular when the urgent ones span several directions; with all
    emergencies on one direction it minimises [(time_to_intersection, priority)]. *)
Theorem select_emergency_fcfs_or_lexicographic (st : IntersectionState) :
  ((exists e1 e2, In e1 (emergency st) /\ In e2 (emergency st) /\ direction e1 <> direction e2) ->
   exists ev, select_emergency st = Some ev /\ In ev (emergency st) /\
     forall e, In e (emergency st) -> time_to_intersection ev <= time_to_intersection e) /\
  (emergency st <> [] ->
   (forall e1 e2, In e1 (emergency st) -> In e2 (emergency st) -> direction e1 = direction e2) ->
   exists ev, select_emergency st = Some ev /\ In ev (emergency st) /\
     forall e, In e (emergency st) -> eta_prio_le ev e).
Proof.
  split.
  - intros (e1 & e2 & H1 & H2 & Hne).
    pose proof (group_by_direction_two _ _ _ H1 H2 Hne) as Hlen.
    unfold select_emergency. apply Nat.ltb_lt in Hlen. rewrite Hlen.
    destruct (py_min_by_some eta_lt (emergency st)) as [m Hm]; [intros E; rewrite E in H1; destruct H1|].
    rewrite Hm. apply eta_min_spec in Hm. destruct Hm as [Hin Hle].
    exists m. split; [reflexivity|]. split; [assumption|]. exact Hle.
  - intros Hne Hsame. destruct (emergency st) as [|e0 rest] eqn:Hem; [congruence|].
    assert (Hlen : (length (group_by_direction (emergency st)) <= 1)%nat).
    { apply (group_by_direction_one _ (direction e0)). rewrite Hem. intros e He.
      apply Hsame; [assumption | left; reflexivity]. }
    unfold select_emergency. assert (Nat.ltb 1 (length (group_by_direction (emergency st))) = false)
      as Hb by (apply Nat.ltb_ge; exact Hlen).
    rewrite Hb, Hem.
    destruct (py_min_by_some eta_prio_lt (e0 :: rest)) as [m Hm]; [discriminate|].
    rewrite Hm. apply eta_prio_min_spec in Hm. destruct Hm as [Hin Hle].
    exists m. split; [reflexivity|]. split; assumption.
Qed.

(** C6 at Scenario D: the northbound vehicle, due in 5 s, wins over the
    eastbound one due in 8 s. *)
Lemma select_emergency_fcfs_witness :
  exists ev, select_emergency scenario_D = Some ev /\ In ev (emergency scenario_D) /\
    forall e, In e (emergency scenario_D) -> time_to_intersection ev <= time_to_intersection e.
Proof.
  apply (proj1 (select_emergency_fcfs_or_lexicographic scenario_D)).
  exists (mkEV str_E 8 "EMG001" 1), (mkEV str_N 5 "EMG002" 1).
  split; [simpl; auto|]. split; [simpl; auto|]. vm_compute. discriminate.
Defined.

(** C3: [_handle_emergency] clips the emergency green only from above, by
    [max_green]; with [emergency_clear_duration = 5 < min_green = 7] the
    emergency green of Scenario C lasts 5 seconds, below [min_green], where the
    Round Robin, SJF and Priority planners all clamp their green at [min_green]. *)
Lemma emergency_green_below_min_green :
  schedule params_short_clear scenario_C META =
    Ok [mkPhase EW_yellow 3 false; mkPhase all_red 1 false; mkPhase NS_green 5 false] /\
  5 < min_green params_short_clear.
Proof. split; vm_compute; reflexivity. Qed.

(** ** Policy selection *)

(** C7: with no urgent emergency, [_select_policy] picks Priority when some
    emergency is present, else Round Robin under low mean load, else SJF under
    high variance, else Priority; and [schedule] with META runs exactly that
    planner. *)
Theorem select_policy_branches (params : PolicyParams) (st : IntersectionState) :
  has_urgent_emergency params st = false ->
  (emergency st <> [] -> select_policy params st = PRIORITY) /\
  (emergency st = [] ->
   compute_average_queue_length st < low_load_threshold params ->
   select_policy params st = ROUND_ROBIN) /\
  (emergency st = [] ->
   low_load_threshold params <= compute_average_queue_length st ->
   high_variance_threshold params < compute_queue_variance st ->
   select_policy params st = SHORTEST_JOB_FIRST) /\
  (emergency st = [] ->
   low_load_threshold params <= compute_average_queue_length st ->
   compute_queue_variance st <= high_variance_threshold params ->
   select_policy params st = PRIORITY) /\
  schedule params st META = run_policy params st (select_policy params st).
Proof.
  intros Hu. unfold select_policy.
  split; [destruct (emergency st); [congruence | reflexivity]|].
  split; [intros -> Hlt; apply Qltb_true in Hlt; rewrite Hlt; reflexivity|].
  split.
  { intros -> Hge Hgt.
    destruct (Qltb (compute_average_queue_length st) (low_load_threshold params)) eqn:E.
    - apply Qltb_true in E. exfalso. apply (Qlt_not_le _ _ E Hge).
    - apply Qltb_true in Hgt. rewrite Hgt. reflexivity. }
  split.
  { intros -> Hge Hle.
    destruct (Qltb (compute_average_queue_length st) (low_load_threshold params)) eqn:E.
    - apply Qltb_true in E. exfalso. apply (Qlt_not_le _ _ E Hge).
    - destruct (Qltb (high_variance_threshold params) (compute_queue_variance st)) eqn:F;
        [|reflexivity].
      apply Qltb_true in F. exfalso. apply (Qlt_not_le _ _ F Hle). }
  unfold schedule. rewrite Hu. reflexivity.
Qed.

(** C7 at Scenario A (no emergency). *)
Lemma select_policy_branches_witness :
  schedule default_params scenario_A META
    = run_policy default_params scenario_A (select_policy default_params scenario_A).
Proof.
  apply (select_policy_branches default_params scenario_A).
  vm_compute. reflexivity.
Defined.

(** ** Totality *)

Lemma dict_set_nonnil {K V : Type} (eqb : K -> K -> bool) (k : K) (v : V) (d : list (K * V)) :
  dict_set eqb k v d <> [].
Proof. destruct d as [|[k' v'] d]; simpl; [|destruct (eqb k k')]; discriminate. Qed.

Lemma snoc_nonnil {A : Type} (l : list A) (a : A) : l ++ [a] <> [].
Proof. intros H. apply app_eq_nil in H. destruct H as [_ H]. discriminate. Qed.

Lemma fold_left_nonnil {A X : Type} (g : list X -> A -> list X) :
  (forall acc a, g acc a <> []) ->
  forall l acc, l <> [] \/ acc <> [] -> fold_left g l acc <> [].
Proof.
  intros Hg l. induction l as [|a l IH]; simpl; intros acc [H|H]; try congruence;
    apply IH; right; apply Hg.
Qed.

Lemma round_robin_nonempty (params : PolicyParams) (st : IntersectionState) :
  rr_cycle_order params <> [] -> exists p, round_robin_schedule params st = Ok p /\ p <> [].
Proof.
  intros Hne. unfold round_robin_schedule. cbv zeta.
  assert (Hlen : length (rr_cycle_order params) <> 0%nat)
    by (destruct (rr_cycle_order params); simpl; congruence).
  match goal with |- context [nth_error ?l ?i] => destruct (nth_error l i) as [t|] eqn:E end.
  - eexists. split; [reflexivity | apply snoc_nonnil].
  - exfalso. apply nth_error_None in E.
    destruct (list_index (current_phase st) (rr_cycle_order params)).
    + pose proof (Nat.mod_upper_bound (S n) _ Hlen). lia.
    + lia.
Qed.

Lemma sjf_nonempty (params : PolicyParams) (st : IntersectionState) :
  rr_cycle_order params <> [] -> exists p, sjf_schedule params st = Ok p /\ p <> [].
Proof.
  intros Hne.
  assert (Hj : sjf_phase_jobs params st <> []).
  { unfold sjf_phase_jobs. apply fold_left_nonnil; [intros; apply dict_set_nonnil | left; exact Hne]. }
  unfold sjf_schedule.
  destruct (py_min_by_some (fun a b => Qltb (snd a) (snd b)) _ Hj) as [[t j] Hm].
  rewrite Hm. eexists. split; [reflexivity | apply snoc_nonnil].
Qed.

Lemma calculate_direction_priority_ok (st : IntersectionState) (d : string) :
  Forall (fun ev => priority ev <> 0%Z) (emergency st) ->
  exists q, calculate_direction_priority st d = Ok q.
Proof.
  intros H. unfold calculate_direction_priority. cbv zeta.
  match goal with |- exists r, fold_left ?f _ (Ok ?q0) = Ok r =>
    assert (G : forall l q, Forall (fun ev => priority ev <> 0%Z) l ->
                  exists r, fold_left f l (Ok q) = Ok r) end.
  { induction l as [|ev l IH]; simpl; intros q Hl; [eauto|].
    inversion Hl as [|? ? Hev Hrest]; subst.
    destruct (String.eqb (direction ev) d); [|apply IH; exact Hrest].
    apply Z.eqb_neq in Hev. rewrite Hev. apply IH. exact Hrest. }
  apply G. exact H.
Qed.

Lemma priority_nonempty (params : PolicyParams) (st : IntersectionState) :
  Forall (fun ev => priority ev <> 0%Z) (emergency st) ->
  exists p, priority_schedule params st = Ok p /\ p <> [].
Proof.
  intros H.
  destruct (calculate_direction_priority_ok st str_N H) as [a HN].
  destruct (calculate_direction_priority_ok st str_E H) as [b HE].
  destruct (calculate_direction_priority_ok st str_S H) as [c HS].
  destruct (calculate_direction_priority_ok st str_W H) as [d HW].
  assert (Hdp : direction_priorities st = Ok [(str_N, a); (str_E, b); (str_S, c); (str_W, d)]).
  { unfold direction_priorities. cbn [fold_left bind].
    rewrite HN. cbn [bind]. rewrite HE. cbn [bind]. rewrite HS. cbn [bind]. rewrite HW.
    reflexivity. }
  unfold priority_schedule. rewrite Hdp. cbn [bind py_max_by fold_left].
  repeat match goal with |- context [if ?c then _ else _] => destruct c end;
    (eexists; split; [reflexivity | apply snoc_nonnil]).
Qed.

Lemma emergency_nonempty (params : PolicyParams) (st : IntersectionState) :
  has_urgent_emergency params st = true ->
  Forall (fun ev => valid_direction (direction ev) = true) (emergency st) ->
  exists p, handle_emergency params st = Ok p /\ p <> [].
Proof.
  intros Hu Hv. destruct (select_emergency_some st (urgent_nonempty params st Hu)) as [ev Hev].
  rewrite Forall_forall in Hv.
  destruct (get_green_phase_valid (direction ev) (Hv ev (select_emergency_In st ev Hev)))
    as (t & Ht & _ & _).
  unfold handle_emergency. rewrite Hev. simpl. rewrite Ht. simpl.
  eexists. split; [reflexivity | apply snoc_nonnil].
Qed.

(** C8 (amended): for a numerically valid state and any policy, [schedule]
    returns a non-empty plan as long as [rr_cycle_order] is non-empty; with an
    empty cycle order and no urgent emergency, SJF returns an empty plan without
    any error and Round Robin raises [IndexError]. *)
Theorem schedule_nonempty_plan
  (params : PolicyParams) (st : IntersectionState) (pol : SchedulingPolicy) :
  (valid_state st -> rr_cycle_order params <> [] ->
   exists p, schedule params st pol = Ok p /\ p <> []) /\
  (rr_cycle_order params = [] -> has_urgent_emergency params st = false ->
   schedule params st SHORTEST_JOB_FIRST = Ok [] /\
   schedule params st ROUND_ROBIN = Err IndexError).
Proof.
  split.
  - intros Hv Hrr. unfold valid_state in Hv.
    assert (Hd : Forall (fun ev => valid_direction (direction ev) = true) (emergency st))
      by (eapply Forall_impl; [|exact Hv]; simpl; intros ev [H _]; exact H).
    assert (Hp : Forall (fun ev => priority ev <> 0%Z) (emergency st))
      by (eapply Forall_impl; [|exact Hv]; simpl; intros ev [_ H]; lia).
    unfold schedule. destruct (has_urgent_emergency params st) eqn:Hu.
    + apply emergency_nonempty; assumption.
    + unfold run_policy.
      destruct (match pol with META => select_policy params st | p0 => p0 end) eqn:Hpol.
      * apply round_robin_nonempty. exact Hrr.
      * apply sjf_nonempty. exact Hrr.
      * apply priority_nonempty. exact Hp.
      * exfalso. destruct pol; try discriminate.
        unfold select_policy in Hpol. destruct (emergency st); [|discriminate].
        destruct (Qltb _ _); [discriminate|]. destruct (Qltb _ _); discriminate.
  - intros Hrr Hu. unfold schedule. rewrite Hu. simpl.
    unfold sjf_schedule, sjf_phase_jobs, round_robin_schedule. rewrite Hrr. simpl.
    split; reflexivity.
Qed.

(** C8 at Scenario C: the emergency plan is non-empty. *)
Lemma schedule_nonempty_plan_witness :
  exists p, schedule default_params scenario_C META = Ok p /\ p <> [].
Proof.
  apply (proj1 (schedule_nonempty_plan default_params scenario_C META)).
  - unfold valid_state. repeat constructor; simpl; lia.
  - discriminate.
Defined.

(** C8: with an empty cycle order, SJF on Scenario A (four directions) returns
    the empty plan and reports no error. *)
Lemma empty_plan_counterexample :
  schedule params_no_cycle scenario_A SHORTEST_JOB_FIRST = Ok [] /\ queues scenario_A <> [].
Proof. split; [vm_compute; reflexivity | discriminate]. Qed.

(** * Further properties of the scheduling layer *)

(** ** [explain_decision] and [_select_policy] *)

(** The explanation names the policy [_select_policy] picks, whatever policy
    argument it is given. *)
Theorem explain_decision_names_selected_policy
  (params : PolicyParams) (st : IntersectionState) (pol : SchedulingPolicy) :
  explanation_policy (explain_decision params st pol) = select_policy params st.
Proof.
  unfold explain_decision, select_policy. destruct (emergency st); [|reflexivity].
  destruct (Qltb _ _); [reflexivity|]. destruct (Qltb _ _); reflexivity.
Qed.

(** ** Queue statistics *)

Lemma Qsquare_nonneg' (x : Q) : 0 <= x * x.
Proof. unfold Qle, Qmult. simpl. nia. Qed.

Lemma sumQ_nonneg (l : list Q) : Forall (fun x => 0 <= x) l -> 0 <= sumQ l.
Proof.
  induction 1 as [|x l Hx _ IH]; simpl; [apply Qle_refl|].
  rewrite <- (Qplus_0_r 0). apply Qplus_le_compat; assumption.
Qed.

(** The queue variance is never negative. *)
Theorem queue_variance_nonneg (st : IntersectionState) : 0 <= compute_queue_variance st.
Proof.
  unfold compute_queue_variance. destruct (Nat.ltb _ _); [apply Qle_refl|].
  cbv zeta. unfold Qdiv. apply Qmult_le_0_compat.
  - apply sumQ_nonneg. apply Forall_forall. intros x Hx. apply in_map_iff in Hx.
    destruct Hx as (q & <- & _). apply Qsquare_nonneg'.
  - apply Qinv_le_0_compat. unfold QZ. change 0 with (inject_Z 0). rewrite <- Zle_Qle. lia.
Qed.

Lemma map_snd_const {A : Type} (l : list (A * Z)) (c : Z) :
  Forall (fun kv => snd kv = c) l -> map snd l = repeat c (length l).
Proof. induction 1 as [|[k v] l Hv _ IH]; simpl in *; [reflexivity|]. subst. f_equal. exact IH. Qed.

Lemma sumZ_repeat (c : Z) (n : nat) : sumZ (repeat c n) = (Z.of_nat n * c)%Z.
Proof. induction n as [|n IH]; [reflexivity|]. cbn [repeat sumZ]. rewrite IH, Nat2Z.inj_succ. lia. Qed.

Lemma sum_sq_dev_const (m : Q) (c : Z) (n : nat) :
  m == QZ c -> sumQ (map (fun q => (QZ q - m) * (QZ q - m)) (repeat c n)) == 0.
Proof.
  intros Hm. induction n as [|n IH]; simpl; [reflexivity|].
  rewrite IH, Hm. ring.
Qed.

(** With every queue holding the same count [c], the mean is [c] and the
    variance 0; so, with a non-negative [high_variance_threshold], the
    meta-scheduler never picks SJF. *)
Theorem uniform_queues_no_sjf
  (params : PolicyParams) (st : IntersectionState) (c : Z) :
  queues st <> [] -> Forall (fun kv => snd kv = c) (queues st) ->
  compute_average_queue_length st == QZ c /\
  compute_queue_variance st == 0 /\
  (0 <= high_variance_threshold params -> select_policy params st <> SHORTEST_JOB_FIRST).
Proof.
  intros Hne Hc. pose proof (map_snd_const _ _ Hc) as Hrep.
  assert (Hn : (1 <= length (queues st))%nat)
    by (destruct (queues st); simpl; [congruence | lia]).
  set (n := length (queues st)) in *.
  assert (Hmean : QZ (sumZ (repeat c n)) / QZ (Z.of_nat (length (repeat c n))) == QZ c).
  { rewrite sumZ_repeat, repeat_length. unfold QZ. rewrite inject_Z_mult. field.
    intros H. unfold Qeq in H. simpl in H. lia. }
  assert (Havg : compute_average_queue_length st == QZ c).
  { unfold compute_average_queue_length. cbv zeta. rewrite Hrep.
    destruct n as [|n']; [lia|]. simpl repeat. exact Hmean. }
  assert (Hvar : compute_queue_variance st == 0).
  { unfold compute_queue_variance. cbv zeta. rewrite Hrep.
    destruct (Nat.ltb _ _); [reflexivity|].
    rewrite (sum_sq_dev_const _ c n Hmean). unfold Qdiv. apply Qmult_0_l. }
  split; [exact Havg|]. split; [exact Hvar|].
  intros Hh. unfold select_policy. destruct (emergency st); [|discriminate].
  destruct (Qltb _ _); [discriminate|].
  destruct (Qltb (high_variance_threshold params) (compute_queue_variance st)) eqn:E; [|discriminate].
  apply Qltb_true in E. rewrite Hvar in E. intros _. apply (Qlt_not_le _ _ E Hh).
Qed.

(** Scenario A has four queues of one vehicle each. *)
Lemma uniform_queues_no_sjf_witness :
  compute_average_queue_length scenario_A == QZ 1 /\
  compute_queue_variance scenario_A == 0 /\
  (0 <= high_variance_threshold default_params ->
   select_policy default_params scenario_A <> SHORTEST_JOB_FIRST).
Proof.
  apply uniform_queues_no_sjf.
  - discriminate.
  - repeat constructor.
Defined.

(** ** Shortest Job First *)

Lemma PhaseId_eqb_eq (a b : PhaseId) : PhaseId_eqb a b = true <-> a = b.
Proof. destruct a, b; simpl; split; congruence. Qed.

Lemma dict_set_In (k : PhaseId) (v : Q) (d : list (PhaseId * Q)) (k' : PhaseId) (v' : Q) :
  In (k', v') (dict_set PhaseId_eqb k v d) -> (k' = k /\ v' = v) \/ In (k', v') d.
Proof.
  induction d as [|[k0 v0] d IH]; simpl.
  - intros [H|[]]. injection H as <- <-. auto.
  - destruct (PhaseId_eqb k k0) eqn:E.
    + apply PhaseId_eqb_eq in E. subst k0. intros [H|H].
      * injection H as <- <-. auto.
      * right. right. exact H.
    + intros [H|H]; [right; left; exact H|]. destruct (IH H) as [H'|H']; [left | right; right]; assumption.
Qed.

Lemma dict_set_keeps (k : PhaseId) (v : Q) (d : list (PhaseId * Q)) (k' : PhaseId) :
  k' = k \/ In k' (map fst d) -> In k' (map fst (dict_set PhaseId_eqb k v d)).
Proof.
  induction d as [|[k0 v0] d IH]; simpl.
  - intros [H|[]]. left. symmetry. exact H.
  - destruct (PhaseId_eqb k k0) eqn:E; simpl.
    + apply PhaseId_eqb_eq in E. subst k0. intros [H|[H|H]]; auto.
    + intros [H|[H|H]]; auto.
Qed.

Lemma dict_lookup_In (k : PhaseId) (d : list (PhaseId * Q)) (dflt : Q) :
  In k (map fst d) -> In (k, dict_lookup PhaseId_eqb k d dflt) d.
Proof.
  induction d as [|[k0 v0] d IH]; simpl; [intros []|].
  destruct (PhaseId_eqb k k0) eqn:E.
  - apply PhaseId_eqb_eq in E. subst k0. intros _. left. reflexivity.
  - intros [H|H]; [subst k0; destruct k; discriminate|]. right. apply IH, H.
Qed.

Lemma sjf_phase_jobs_fold (params : PolicyParams) (st : IntersectionState) :
  sjf_phase_jobs params st =
  fold_left (fun jobs p => dict_set PhaseId_eqb p (sjf_jobs params st p) jobs) (rr_cycle_order params) [].
Proof. reflexivity. Qed.

(** Every entry of [phase_jobs] holds the job count of its phase, and every
    phase of the cycle has an entry. *)
Lemma sjf_phase_jobs_entries (params : PolicyParams) (st : IntersectionState) :
  (forall k v, In (k, v) (sjf_phase_jobs params st) -> v = sjf_jobs params st k) /\
  (forall q, In q (rr_cycle_order params) -> In q (map fst (sjf_phase_jobs params st))).
Proof.
  rewrite sjf_phase_jobs_fold.
  assert (G : forall l acc,
    (forall k v, In (k, v) acc -> v = sjf_jobs params st k) ->
    (forall k v, In (k, v) (fold_left (fun jobs p => dict_set PhaseId_eqb p (sjf_jobs params st p) jobs) l acc) ->
                 v = sjf_jobs params st k) /\
    (forall q, In q l \/ In q (map fst acc) ->
               In q (map fst (fold_left (fun jobs p => dict_set PhaseId_eqb p (sjf_jobs params st p) jobs) l acc)))).
  { induction l as [|a l IH]; simpl; intros acc Hacc.
    - split; [exact Hacc|]. intros q [[]|H]; exact H.
    - destruct (IH (dict_set PhaseId_eqb a (sjf_jobs params st a) acc)) as [IH1 IH2].
      + intros k v H. apply dict_set_In in H. destruct H as [[-> ->]|H]; [reflexivity | apply Hacc, H].
      + split; [exact IH1|]. intros q H. apply IH2.
        destruct H as [[H|H]|H]; [right; apply dict_set_keeps; left; symmetry; exact H
                                 | left; exact H
                                 | right; apply dict_set_keeps; right; exact H]. }
  destruct (G (rr_cycle_order params) [] (fun k v H => match H with end)) as [G1 G2].
  split; [exact G1|]. intros q Hq. apply G2. left. exact Hq.
Qed.

(** [_sjf_schedule] targets a phase of the cycle whose job count is minimal
    over the cycle, and gives it [max(min_green, min(max_green, 3 * jobs))]. *)
Theorem sjf_selects_min_jobs (params : PolicyParams) (st : IntersectionState) (p : ActionPlan) :
  sjf_schedule params st = Ok p -> p <> [] ->
  exists t, In t (rr_cycle_order params) /\
    (forall q, In q (rr_cycle_order params) -> sjf_jobs params st t <= sjf_jobs params st q) /\
    p = transition_prefix params (current_phase st) t
        ++ [mkPhase t (py_max (min_green params)
                              (py_min (max_green params) (sjf_jobs params st t * 3))) true].
Proof.
  intros H Hne. destruct (sjf_phase_jobs_entries params st) as [Hval Hcov].
  unfold sjf_schedule in H.
  destruct (py_min_by (fun a b => Qltb (snd a) (snd b)) (sjf_phase_jobs params st)) as [[t j]|] eqn:E;
    [|injection H as <-; contradiction].
  injection H as <-.
  apply (py_min_by_spec _ (fun a b => snd a <= snd b)) in E.
  2: { intros a. apply Qle_refl. }
  2: { intros a b c. apply Qle_trans. }
  2: { intros a b Hl. apply Qlt_le_weak, Qltb_true, Hl. }
  2: { intros a b Hl. apply Qltb_false, Hl. }
  destruct E as [Hin Hmin]. pose proof (Hval _ _ Hin) as Hj. subst j.
  exists t. split; [eapply sjf_phase_jobs_keys; exact Hin|]. split.
  - intros q Hq. pose proof (Hcov q Hq) as Hc. apply in_map_iff in Hc. destruct Hc as ([q' v] & Hq' & Hqin).
    simpl in Hq'. subst q'. rewrite <- (Hval _ _ Hqin). apply (Hmin (q, v) Hqin).
  - assert (Hk : In t (map fst (sjf_phase_jobs params st))) by (apply (in_map fst) in Hin; exact Hin).
    pose proof (Hval _ _ (dict_lookup_In t _ 0 Hk)) as Hl. rewrite Hl. reflexivity.
Qed.

(** At Scenario A with the default cycle. *)
Lemma sjf_selects_min_jobs_witness :
  exists t, In t (rr_cycle_order default_params) /\
    (forall q, In q (rr_cycle_order default_params) ->
               sjf_jobs default_params scenario_A t <= sjf_jobs default_params scenario_A q) /\
    [mkPhase NS_green (py_max 7 (py_min 60 (sjf_jobs default_params scenario_A NS_green * 3))) true]
      = transition_prefix default_params (current_phase scenario_A) t
        ++ [mkPhase t (py_max (min_green default_params)
                              (py_min (max_green default_params) (sjf_jobs default_params scenario_A t * 3))) true].
Proof.
  apply sjf_selects_min_jobs.
  - vm_compute. reflexivity.
  - discriminate.
Defined.

(** ** Priority scheduling *)

Lemma direction_priorities_Ok (st : IntersectionState) (dp : list (string * Q)) :
  direction_priorities st = Ok dp ->
  exists a b c d,
    calculate_direction_priority st str_N = Ok a /\ calculate_direction_priority st str_E = Ok b /\
    calculate_direction_priority st str_S = Ok c /\ calculate_direction_priority st str_W = Ok d /\
    dp = [(str_N, a); (str_E, b); (str_S, c); (str_W, d)].
Proof.
  unfold direction_priorities. cbn [fold_left bind].
  destruct (calculate_direction_priority st str_N) as [a|e] eqn:HN; cbn [bind]; [|discriminate].
  destruct (calculate_direction_priority st str_E) as [b|e] eqn:HE; cbn [bind]; [|discriminate].
  destruct (calculate_direction_priority st str_S) as [c|e] eqn:HS; cbn [bind]; [|discriminate].
  destruct (calculate_direction_priority st str_W) as [d|e] eqn:HW; cbn [bind]; [|discriminate].
  intros H. injection H as <-. exists a, b, c, d. repeat split; reflexivity.
Qed.

Lemma py_max_by_as_min {A : Type} (lt : A -> A -> bool) (l : list A) :
  py_max_by lt l = py_min_by (fun a b => lt b a) l.
Proof. reflexivity. Qed.

(** [_priority_schedule] targets the green serving a direction whose priority
    score is maximal over N, E, S, W, and gives it
    [min(max_green, max(min_green, 2.5 * queue))]. *)
Theorem priority_selects_max_score (params : PolicyParams) (st : IntersectionState) (p : ActionPlan) :
  priority_schedule params st = Ok p ->
  exists d score t,
    In d [str_N; str_E; str_S; str_W] /\
    calculate_direction_priority st d = Ok score /\
    (forall d' s', In d' [str_N; str_E; str_S; str_W] ->
                   calculate_direction_priority st d' = Ok s' -> s' <= score) /\
    get_green_phase_for_direction d = Ok t /\
    p = transition_prefix params (current_phase st) t
        ++ [mkPhase t (py_min (max_green params)
                        (py_max (min_green params) (QZ (dict_get d (queues st) 0%Z) * (5 # 2)))) true].
Proof.
  unfold priority_schedule. destruct (direction_priorities st) as [dp|e] eqn:Hdp; cbn [bind];
    [|discriminate].
  destruct (direction_priorities_Ok st dp Hdp) as (a & b & c & d & HN & HE & HS & HW & ->).
  rewrite py_max_by_as_min.
  destruct (py_min_by _ _) as [[bd score]|] eqn:E; [|discriminate].
  apply (py_min_by_spec _ (fun x y => snd y <= snd x)) in E.
  2: { intros x. apply Qle_refl. }
  2: { intros x y z H1 H2. eapply Qle_trans; eassumption. }
  2: { intros x y Hl. apply Qlt_le_weak, Qltb_true, Hl. }
  2: { intros x y Hl. apply Qltb_false, Hl. }
  destruct E as [Hin Hmax].
  destruct (get_green_phase_for_direction bd) as [t|e] eqn:Ht; cbn [bind]; [|discriminate].
  intros H. injection H as <-.
  assert (Hd : In bd [str_N; str_E; str_S; str_W] /\ calculate_direction_priority st bd = Ok score).
  { simpl in Hin. destruct Hin as [H|[H|[H|[H|[]]]]]; injection H as <- <-; simpl; auto 6. }
  destruct Hd as [Hd Hs].
  exists bd, score, t. split; [exact Hd|]. split; [exact Hs|]. split; [|split; [exact Ht | reflexivity]].
  intros d' s' Hd' Hs'.
  simpl in Hd'. destruct Hd' as [<-|[<-|[<-|[<-|[]]]]].
  - rewrite HN in Hs'. injection Hs' as <-. apply (Hmax (str_N, a)). simpl. auto.
  - rewrite HE in Hs'. injection Hs' as <-. apply (Hmax (str_E, b)). simpl. auto.
  - rewrite HS in Hs'. injection Hs' as <-. apply (Hmax (str_S, c)). simpl. auto.
  - rewrite HW in Hs'. injection Hs' as <-. apply (Hmax (str_W, d)). simpl. auto.
Qed.

Lemma priority_selects_max_score_witness :
  exists d score t,
    In d [str_N; str_E; str_S; str_W] /\
    calculate_direction_priority scenario_E d = Ok score /\
    (forall d' s', In d' [str_N; str_E; str_S; str_W] ->
                   calculate_direction_priority scenario_E d' = Ok s' -> s' <= score) /\
    get_green_phase_for_direction d = Ok t /\
    [mkPhase NS_yellow 3 false; mkPhase all_red 1 false;
     mkPhase EW_green (py_min 60 (py_max 7 (QZ 4 * (5 # 2)))) true]
    = transition_prefix default_params (current_phase scenario_E) t
        ++ [mkPhase t (py_min (max_green default_params)
                        (py_max (min_green default_params)
                           (QZ (dict_get d (queues scenario_E) 0%Z) * (5 # 2)))) true].
Proof.
  apply priority_selects_max_score. vm_compute. reflexivity.
Defined.

(** ** Round Robin *)

Lemma PhaseId_eqb_refl (a : PhaseId) : PhaseId_eqb a a = true.
Proof. destruct a; reflexivity. Qed.

Lemma list_index_nodup (l : list PhaseId) (i : nat) (x : PhaseId) :
  NoDup l -> nth_error l i = Some x -> list_index x l = Some i.
Proof.
  revert i. induction l as [|y l IH]; intros i Hnd Hn; [destruct i; discriminate|].
  inversion Hnd as [|? ? Hy Hnd']; subst. destruct i as [|i]; simpl in Hn.
  - injection Hn as ->. simpl. rewrite PhaseId_eqb_refl. reflexivity.
  - simpl. destruct (PhaseId_eqb x y) eqn:E.
    + apply PhaseId_eqb_eq in E. subst y. exfalso. apply Hy. eapply nth_error_In. exact Hn.
    + rewrite (IH i Hnd' Hn). reflexivity.
Qed.

Lemma list_index_In (l : list PhaseId) (x : PhaseId) (i : nat) :
  list_index x l = Some i -> In x l.
Proof.
  revert i. induction l as [|y l IH]; simpl; intros i H; [discriminate|].
  destruct (PhaseId_eqb x y) eqn:E.
  - left. symmetry. apply PhaseId_eqb_eq, E.
  - destruct (list_index x l) as [j|] eqn:F; [|discriminate]. right. eapply IH. reflexivity.
Qed.

(** With a duplicate-free cycle, Round Robin targets the cycle entry after the
    current phase (wrapping around), or the first entry when the current phase
    is not in the cycle. *)
Theorem round_robin_targets_successor (params : PolicyParams) (st : IntersectionState) (p : ActionPlan) :
  NoDup (rr_cycle_order params) ->
  round_robin_schedule params st = Ok p ->
  exists t d,
    p = transition_prefix params (current_phase st) t ++ [mkPhase t d true] /\
    (forall i, nth_error (rr_cycle_order params) i = Some (current_phase st) ->
       nth_error (rr_cycle_order params) (Nat.modulo (S i) (length (rr_cycle_order params))) = Some t) /\
    (~ In (current_phase st) (rr_cycle_order params) -> nth_error (rr_cycle_order params) 0 = Some t).
Proof.
  intros Hnd H. unfold round_robin_schedule in H. cbv zeta in H.
  destruct (list_index (current_phase st) (rr_cycle_order params)) as [k|] eqn:Hi;
    destruct (nth_error (rr_cycle_order params) _) as [t|] eqn:Hn; try discriminate;
    injection H as <-; eexists t, _; (split; [reflexivity|]).
  - split.
    + intros i Hc. rewrite (list_index_nodup _ _ _ Hnd Hc) in Hi. injection Hi as ->.
      first [exact Hn | reflexivity].
    + intros Hnot. exfalso. apply Hnot. eapply list_index_In. exact Hi.
  - split.
    + intros i Hc. rewrite (list_index_nodup _ _ _ Hnd Hc) in Hi. discriminate.
    + intros _. first [exact Hn | reflexivity].
Qed.

Lemma round_robin_targets_successor_witness :
  exists t d,
    [mkPhase NS_yellow 3 false; mkPhase all_red 1 false; mkPhase EW_green 11 true]
      = transition_prefix default_params (current_phase scenario_A) t ++ [mkPhase t d true] /\
    (forall i, nth_error (rr_cycle_order default_params) i = Some (current_phase scenario_A) ->
       nth_error (rr_cycle_order default_params)
                 (Nat.modulo (S i) (length (rr_cycle_order default_params))) = Some t) /\
    (~ In (current_phase scenario_A) (rr_cycle_order default_params) ->
     nth_error (rr_cycle_order default_params) 0 = Some t).
Proof.
  apply round_robin_targets_successor.
  - repeat constructor; simpl; intuition discriminate.
  - vm_compute. reflexivity.
Defined.

(** ** Structure of the plans *)

Lemma transition_prefix_phases (params : PolicyParams) (cur t : PhaseId) (y : Phase) :
  In y (transition_prefix params cur t) -> preemptable y = false /\ is_green (phase y) = false.
Proof.
  unfold transition_prefix, schedule_transition_with_yellow.
  destruct cur, t; simpl; intros H; repeat (destruct H as [<-|H]; [simpl; auto|]); contradiction.
Qed.

Lemma transition_prefix_length (params : PolicyParams) (cur t : PhaseId) :
  (length (transition_prefix params cur t) <= 2)%nat.
Proof. unfold transition_prefix, schedule_transition_with_yellow. destruct cur, t; simpl; lia. Qed.

Lemma transition_prefix_nil (params : PolicyParams) (cur t : PhaseId) :
  cur = all_red \/ cur = t -> transition_prefix params cur t = [].
Proof.
  unfold transition_prefix. intros [->| ->]; [destruct t|]; rewrite ?PhaseId_eqb_refl; simpl;
    rewrite ?andb_false_r; reflexivity.
Qed.

(** Every successful plan is empty or a transition prefix followed by one target
    phase; the target is non-preemptable exactly under an urgent emergency, and
    is a green unless it is a non-green entry of the cycle. *)
Lemma schedule_shape_full (params : PolicyParams) (st : IntersectionState) (pol : SchedulingPolicy) (p : ActionPlan) :
  schedule params st pol = Ok p ->
  p = [] \/ exists t d,
    p = transition_prefix params (current_phase st) t
        ++ [mkPhase t d (negb (has_urgent_emergency params st))] /\
    (is_green t = true \/ In t (rr_cycle_order params)).
Proof.
  unfold schedule. destruct (has_urgent_emergency params st) eqn:Hu.
  - intros H. apply emergency_shape in H. destruct H as (ev & t & _ & Ht & ->). right.
    eexists t, _. split; [reflexivity|]. left. eapply get_green_phase_green. exact Ht.
  - unfold run_policy.
    destruct (match pol with META => select_policy params st | p0 => p0 end); intros H.
    + apply rr_shape in H. destruct H as (t & x & Ht & ->). right. eauto.
    + apply sjf_shape in H. destruct H as [->|(t & x & Ht & ->)]; [left; reflexivity | right; eauto].
    + apply priority_shape in H. destruct H as [->|(t & x & Ht & ->)]; [left; reflexivity | right; eauto].
    + discriminate.
Qed.

(** Only the last phase of a plan can be preemptable, and it is preemptable
    exactly when no emergency is urgent. *)
Theorem plan_preemptability (params : PolicyParams) (st : IntersectionState) (pol : SchedulingPolicy)
  (pre : ActionPlan) (x : Phase) :
  schedule params st pol = Ok (pre ++ [x]) ->
  Forall (fun y => preemptable y = false) pre /\
  preemptable x = negb (has_urgent_emergency params st).
Proof.
  intros H. apply schedule_shape_full in H. destruct H as [H|(t & d & H & _)].
  - apply snoc_nonnil in H. contradiction.
  - apply app_inj_tail in H. destruct H as [-> ->]. split; [|reflexivity].
    apply Forall_forall. intros y Hy. apply (transition_prefix_phases params _ _ _ Hy).
Qed.

Lemma plan_preemptability_witness :
  Forall (fun y => preemptable y = false) [mkPhase EW_yellow 3 false; mkPhase all_red 1 false] /\
  preemptable (mkPhase NS_green 15 false) = negb (has_urgent_emergency default_params scenario_C).
Proof. apply (plan_preemptability default_params scenario_C META). vm_compute. reflexivity. Defined.

(** With a cycle of greens, a non-empty plan holds exactly one green, its last
    phase, after at most two transition phases, and after none when the current
    phase is [all_red] or already that green. *)
Theorem plan_single_final_green (params : PolicyParams) (st : IntersectionState) (pol : SchedulingPolicy)
  (p : ActionPlan) :
  Forall (fun ph => is_green ph = true) (rr_cycle_order params) ->
  schedule params st pol = Ok p -> p <> [] ->
  exists pre g, p = pre ++ [g] /\ is_green (phase g) = true /\
    Forall (fun y => is_green (phase y) = false) pre /\ (length pre <= 2)%nat /\
    (current_phase st = all_red \/ current_phase st = phase g -> pre = []).
Proof.
  intros Hrr H Hne. rewrite Forall_forall in Hrr. apply schedule_shape_full in H.
  destruct H as [->|(t & d & -> & Ht)]; [contradiction|].
  eexists _, _. split; [reflexivity|]. simpl. split.
  { destruct Ht as [Ht|Ht]; [exact Ht | apply Hrr, Ht]. }
  split; [apply Forall_forall; intros y Hy; apply (transition_prefix_phases params _ _ _ Hy)|].
  split; [apply transition_prefix_length|]. apply transition_prefix_nil.
Qed.

Lemma plan_single_final_green_witness :
  exists pre g,
    [mkPhase NS_green 7 true] = pre ++ [g] /\ is_green (phase g) = true /\
    Forall (fun y => is_green (phase y) = false) pre /\ (length pre <= 2)%nat /\
    (current_phase (mkState [] [] [] [] all_red 0) = all_red \/
     current_phase (mkState [] [] [] [] all_red 0) = phase g -> pre = []).
Proof.
  apply (plan_single_final_green default_params (mkState [] [] [] [] all_red 0) ROUND_ROBIN).
  - repeat constructor.
  - vm_compute. reflexivity.
  - discriminate.
Defined.

(** ** Re-planning after a plan has been carried out *)

Lemma simulate_plan_fields (st : IntersectionState) (l : ActionPlan) :
  let s := fold_left (fun s ph => simulate_one_step s [ph]) l st in
  queues s = queues st /\ waiting_times s = waiting_times st /\
  arrival_rates s = arrival_rates st /\ emergency s = emergency st.
Proof.
  revert st. induction l as [|ph l IH]; intros st; simpl; [auto|].
  destruct (IH (simulate_one_step st [ph])) as (Hq & Hw & Ha & He). simpl in *. auto.
Qed.

Ltac finish_replan H :=
  injection H as H; apply app_inj_tail in H; destruct H as [_ <-];
  cbn [current_phase phase];
  rewrite transition_prefix_nil by (right; reflexivity); reflexivity.

Lemma replan_at_target (params : PolicyParams) (st : IntersectionState) (pol : SchedulingPolicy)
  (pre : ActionPlan) (g : Phase) (t : Q) :
  (has_urgent_emergency params st = true \/
   match pol with META => select_policy params st | q => q end <> ROUND_ROBIN) ->
  schedule params st pol = Ok (pre ++ [g]) ->
  schedule params (mkState (queues st) (waiting_times st) (arrival_rates st) (emergency st)
                           (phase g) t) pol = Ok [g].
Proof.
  unfold schedule.
  change (has_urgent_emergency params (mkState (queues st) (waiting_times st) (arrival_rates st)
            (emergency st) (phase g) t)) with (has_urgent_emergency params st).
  destruct (has_urgent_emergency params st) eqn:Hu; intros Hc H.
  - unfold handle_emergency in *.
    change (select_emergency (mkState (queues st) (waiting_times st) (arrival_rates st)
              (emergency st) (phase g) t)) with (select_emergency st).
    destruct (select_emergency st) as [ev|]; [|discriminate].
    destruct (get_green_phase_for_direction (direction ev)) as [tp|e]; cbn [bind] in *; [|discriminate].
    finish_replan H.
  - destruct Hc as [Hc|Hc]; [discriminate|]. unfold run_policy in *.
    change (select_policy params (mkState (queues st) (waiting_times st) (arrival_rates st)
              (emergency st) (phase g) t)) with (select_policy params st).
    revert Hc H. destruct (match pol with META => select_policy params st | q => q end);
      intros Hc H; [contradiction Hc; reflexivity| | |discriminate].
    + unfold sjf_schedule in *. cbv zeta in *.
      change (sjf_phase_jobs params (mkState (queues st) (waiting_times st) (arrival_rates st)
                (emergency st) (phase g) t)) with (sjf_phase_jobs params st).
      destruct (py_min_by _ (sjf_phase_jobs params st)) as [[np jc]|].
      * finish_replan H.
      * injection H as H. symmetry in H. apply snoc_nonnil in H. contradiction.
    + unfold priority_schedule in *. cbv zeta in *.
      change (direction_priorities (mkState (queues st) (waiting_times st) (arrival_rates st)
                (emergency st) (phase g) t)) with (direction_priorities st).
      destruct (direction_priorities st) as [dp|e]; cbn [bind] in *; [|discriminate].
      destruct (py_max_by _ dp) as [[bd sc]|].
      * destruct (get_green_phase_for_direction bd) as [np|e]; cbn [bind] in *; [|discriminate].
        finish_replan H.
      * injection H as H. symmetry in H. apply snoc_nonnil in H. contradiction.
Qed.

(** Carrying out a plan phase by phase with [simulate_one_step] and planning
    again returns just the green that was reached, whenever the plan came from
    the emergency path or from Shortest Job First or Priority. *)
Theorem replan_after_plan_keeps_target (params : PolicyParams) (st : IntersectionState)
  (pol : SchedulingPolicy) (pre : ActionPlan) (g : Phase) :
  (has_urgent_emergency params st = true \/
   match pol with META => select_policy params st | q => q end <> ROUND_ROBIN) ->
  schedule params st pol = Ok (pre ++ [g]) ->
  schedule params (fold_left (fun s ph => simulate_one_step s [ph]) (pre ++ [g]) st) pol = Ok [g].
Proof.
  intros Hc H. rewrite fold_left_app. cbn [fold_left].
  destruct (simulate_plan_fields st pre) as (Hq & Hw & Ha & He).
  set (s := fold_left (fun s ph => simulate_one_step s [ph]) pre st) in *.
  change (simulate_one_step s [g]) with
    (mkState (queues s) (waiting_times s) (arrival_rates s) (emergency s) (phase g)
             (sim_time s + duration g)).
  rewrite Hq, Hw, Ha, He.
  eapply replan_at_target; eassumption.
Qed.

Lemma replan_after_plan_keeps_target_witness :
  schedule default_params
    (fold_left (fun s ph => simulate_one_step s [ph])
       ([mkPhase EW_yellow 3 false; mkPhase all_red 1 false] ++ [mkPhase NS_green 15 false]) scenario_C)
    META = Ok [mkPhase NS_green 15 false].
Proof.
  apply (replan_after_plan_keeps_target default_params scenario_C META).
  - left. vm_compute. reflexivity.
  - vm_compute. reflexivity.
Defined.

(** ** Emergency grouping *)

Lemma dict_append_ev_get (k d : string) (ev : EmergencyVehicle) m :
  dict_get d (dict_append_ev k ev m) [] =
  dict_get d m [] ++ (if String.eqb d k then [ev] else []).
Proof.
  unfold dict_get. induction m as [|[k' evs] m IH]; simpl.
  - destruct (String.eqb d k); reflexivity.
  - destruct (String.eqb_spec k k') as [<-|Hk]; simpl.
    + destruct (String.eqb d k); [reflexivity | rewrite app_nil_r; reflexivity].
    + destruct (String.eqb_spec d k') as [->|Hd].
      * destruct (String.eqb_spec k' k) as [E|_]; [congruence | rewrite app_nil_r; reflexivity].
      * exact IH.
Qed.

Lemma group_by_direction_get (evs : list EmergencyVehicle) (d : string) :
  dict_get d (group_by_direction evs) [] = filter (fun ev => String.eqb d (direction ev)) evs.
Proof.
  unfold group_by_direction.
  assert (G : forall acc, dict_get d (fold_left (fun m ev => dict_append_ev (direction ev) ev m) evs acc) []
                = dict_get d acc [] ++ filter (fun ev => String.eqb d (direction ev)) evs).
  { induction evs as [|e evs IH]; intros acc; simpl; [rewrite app_nil_r; reflexivity|].
    rewrite IH, dict_append_ev_get, <- app_assoc. destruct (String.eqb d (direction e)); reflexivity. }
  rewrite G. reflexivity.
Qed.

(** Under an urgent emergency the final green lasts
    [min(emergency_clear_duration + 5 * (n - 1), max_green)], where [n >= 1]
    is the number of emergency vehicles approaching from the selected
    vehicle's direction. *)
Theorem emergency_duration_counts_direction (params : PolicyParams) (st : IntersectionState)
  (pol : SchedulingPolicy) (p : ActionPlan) :
  has_urgent_emergency params st = true ->
  schedule params st pol = Ok p ->
  exists ev pre t,
    select_emergency st = Some ev /\
    p = pre ++ [mkPhase t
                  (py_min (emergency_clear_duration params
                           + QZ ((Z.of_nat (length (filter (fun e => String.eqb (direction ev) (direction e))
                                                           (emergency st))) - 1) * 5))
                          (max_green params)) false] /\
    (1 <= length (filter (fun e => String.eqb (direction ev) (direction e)) (emergency st)))%nat.
Proof.
  intros Hu H. unfold schedule in H. rewrite Hu in H.
  apply emergency_shape in H. destruct H as (ev & t & Hsel & _ & ->).
  exists ev, (transition_prefix params (current_phase st) t), t. rewrite group_by_direction_get. split; [exact Hsel|]. split; [reflexivity|].
  assert (Hin : In ev (filter (fun e => String.eqb (direction ev) (direction e)) (emergency st))).
  { apply filter_In. split; [eapply select_emergency_In; exact Hsel | apply String.eqb_refl]. }
  destruct (filter _ _); [contradiction | simpl; lia].
Qed.

Lemma emergency_duration_counts_direction_witness :
  exists ev pre t,
    select_emergency scenario_two_north = Some ev /\
    [mkPhase EW_yellow 3 false; mkPhase all_red 1 false; mkPhase NS_green 20 false]
      = pre ++ [mkPhase t
                  (py_min (emergency_clear_duration default_params
                           + QZ ((Z.of_nat (length (filter (fun e => String.eqb (direction ev) (direction e))
                                                           (emergency scenario_two_north))) - 1) * 5))
                          (max_green default_params)) false] /\
    (1 <= length (filter (fun e => String.eqb (direction ev) (direction e))
                         (emergency scenario_two_north)))%nat.
Proof.
  apply (emergency_duration_counts_direction default_params scenario_two_north META).
  - vm_compute. reflexivity.
  - vm_compute. reflexivity.
Defined.

(** ** Priority scores and division by a zero vehicle priority *)

Lemma calculate_direction_priority_cases (st : IntersectionState) (d : string) :
  ((exists q, calculate_direction_priority st d = Ok q) \/
   calculate_direction_priority st d = Err ZeroDivisionError) /\
  ((exists ev, In ev (emergency st) /\ direction ev = d /\ priority ev = 0%Z) ->
   calculate_direction_priority st d = Err ZeroDivisionError).
Proof.
  unfold calculate_direction_priority. cbv zeta.
  match goal with |- context [fold_left ?f (emergency st) (Ok ?q0)] =>
    assert (G0 : forall l, fold_left f l (Err ZeroDivisionError) = Err ZeroDivisionError);
    [induction l as [|a l IH]; [reflexivity | exact IH] |];
    assert (G : forall l acc,
               ((exists q, acc = Ok q) \/ acc = Err ZeroDivisionError) ->
               ((exists q, fold_left f l acc = Ok q) \/ fold_left f l acc = Err ZeroDivisionError) /\
               ((exists ev, In ev l /\ direction ev = d /\ priority ev = 0%Z) ->
                fold_left f l acc = Err ZeroDivisionError));
    [|apply G; left; eauto]
  end.
  induction l as [|a l IH]; intros acc Hacc.
  - split; [exact Hacc | intros (ev & [] & _)].
  - cbn [fold_left].
    destruct Hacc as [(q & ->)| ->]; cbn [bind].
    + destruct (String.eqb_spec (direction a) d) as [Hd|Hd];
        [destruct (Z.eqb_spec (priority a) 0) as [Hp|Hp]|]; cbv beta iota.
      * split; [right; apply G0 | intros _; apply G0].
      * match goal with |- context [fold_left _ l ?acc'] =>
          destruct (IH acc') as [IH1 IH2]; [left; eexists; reflexivity|] end.
        split; [exact IH1|].
        intros (ev & [<-|Hin] & He & Hz); [contradiction | apply IH2; eauto].
      * match goal with |- context [fold_left _ l ?acc'] =>
          destruct (IH acc') as [IH1 IH2]; [left; eexists; reflexivity|] end.
        split; [exact IH1|].
        intros (ev & [<-|Hin] & He & Hz); [contradiction | apply IH2; eauto].
    + split; [right; apply G0 | intros _; apply G0].
Qed.

Lemma direction_priorities_zero_division (st : IntersectionState) (d : string) :
  In d [str_N; str_E; str_S; str_W] ->
  calculate_direction_priority st d = Err ZeroDivisionError ->
  direction_priorities st = Err ZeroDivisionError.
Proof.
  intros Hin Hd. unfold direction_priorities. cbn [fold_left bind].
  destruct (proj1 (calculate_direction_priority_cases st str_N)) as [[a Ha]|Ha]; rewrite Ha;
    cbn [bind]; [|reflexivity].
  destruct (proj1 (calculate_direction_priority_cases st str_E)) as [[b Hb]|Hb]; rewrite Hb;
    cbn [bind]; [|reflexivity].
  destruct (proj1 (calculate_direction_priority_cases st str_S)) as [[c Hc]|Hc]; rewrite Hc;
    cbn [bind]; [|reflexivity].
  destruct (proj1 (calculate_direction_priority_cases st str_W)) as [[e He]|He]; rewrite He;
    cbn [bind]; [|reflexivity].
  exfalso. destruct Hin as [<-|[<-|[<-|[<-|[]]]]]; congruence.
Qed.

(** Without an urgent emergency, the Meta and Priority policies raise
    [ZeroDivisionError] as soon as some emergency vehicle from N, E, S or W has
    priority 0. *)
Theorem zero_priority_vehicle_raises (params : PolicyParams) (st : IntersectionState)
  (pol : SchedulingPolicy) (ev : EmergencyVehicle) :
  has_urgent_emergency params st = false ->
  pol = META \/ pol = PRIORITY ->
  In ev (emergency st) -> priority ev = 0%Z -> In (direction ev) [str_N; str_E; str_S; str_W] ->
  schedule params st pol = Err ZeroDivisionError.
Proof.
  intros Hu Hpol Hev Hz Hd. unfold schedule. rewrite Hu.
  assert (Hp : match pol with META => select_policy params st | q => q end = PRIORITY).
  { destruct Hpol as [->| ->]; [|reflexivity]. unfold select_policy.
    destruct (emergency st); [contradiction | reflexivity]. }
  rewrite Hp. unfold run_policy, priority_schedule.
  rewrite (direction_priorities_zero_division st (direction ev) Hd).
  - reflexivity.
  - apply (proj2 (calculate_direction_priority_cases st (direction ev))). eauto.
Qed.

Lemma zero_priority_vehicle_raises_witness :
  schedule default_params scenario_zero_priority META = Err ZeroDivisionError.
Proof.
  apply (zero_priority_vehicle_raises default_params scenario_zero_priority META (mkEV str_N 20 "EMG001" 0)).
  - vm_compute. reflexivity.
  - left. reflexivity.
  - left. reflexivity.
  - reflexivity.
  - left. reflexivity.
Defined.
